(** * Guillotine nesting engine (src/core/nestingEngine.js)

    A shallow embedding of [NestingEngine] and [GuillouinePacker] and the
    properties of the packing pass, followed by the pure parts of the
    code around them: the layout applier, the validation and traversal
    of the image collector and the pipeline of the plugin.

    Numbers. The JavaScript numbers of the source are binary64 values.
    The first embedding takes them as integers ([Z]): it is the code on
    inputs for which no operation rounds. The module [Double] is the same
    code on binary64 numbers with every operation rounded as the source
    does; the properties that need exact sums are stated for the runs of
    [Double] that coincide with the integer run, and shown to fail on
    runs that round. Identifiers and payloads are opaque, so the development is
    parametric in their types. *)

From Stdlib Require Import Floats String QArith.
From Stdlib Require Import ZArith List Bool Lia.
From Stdlib Require Import Sorting.Permutation Sorting.Sorted.
Import ListNotations.
Local Open Scope Z_scope.

Set Implicit Arguments.

(** ** Data model *)

(** [{ x, y, width, height }] of [freeRectangles]. *)
Record FreeRect := mkRect {
  rx : Z;
  ry : Z;
  rwidth : Z;
  rheight : Z
}.

(** The object [insert] returns: [{ id, x, y, width, height }]. *)
Record Slot (Id : Type) := mkSlot {
  sid : Id;
  sx : Z;
  sy : Z;
  swidth : Z;
  sheight : Z
}.

(** Items handed to [nest]: [{ id, width, height, originalItem }]. *)
Record Item (Id Payload : Type) := mkItem {
  id : Id;
  width : Z;
  height : Z;
  originalItem : Payload
}.

(** Elements of the array [nest] returns:
    [{ ...placement, originalItem, rotated }]. *)
Record Placement (Id Payload : Type) := mkPlacement {
  pid : Id;
  px : Z;
  py : Z;
  pwidth : Z;
  pheight : Z;
  poriginalItem : Payload;
  rotated : bool
}.

(** State of a [GuillouinePacker]. *)
Record GuillouinePacker := mkPacker {
  binWidth : Z;
  binHeight : Z;
  pspacing : Z;
  freeRectangles : list FreeRect
}.

(** The [options] object of the engine constructor; [None] is an absent
    (undefined) property. *)
Record Options := mkOptions {
  opt_spacing : option Z;
  opt_allowRotation : option bool;
  opt_targetWidth : option Z;
  opt_targetHeight : option Z
}.

(** Fields of a [NestingEngine]. *)
Record NestingEngine := mkEngine {
  spacing : Z;
  allowRotation : bool;
  targetWidth : Z;
  targetHeight : Z
}.

(** ** GuillouinePacker *)

(** [a || d] on an optional number: an absent property and the falsy
    number 0 both give the default. *)
Definition num_or (a : option Z) (d : Z) : Z :=
  match a with
  | Some v => if v =? 0 then d else v
  | None => d
  end.

(** [a || false] on an optional boolean. *)
Definition bool_or (a : option bool) (d : bool) : bool :=
  match a with
  | Some v => if v then v else d
  | None => d
  end.

(** [constructor(width, height, spacing = 0)]. *)
Definition newPacker (w h : Z) (s : option Z) : GuillouinePacker :=
  {| binWidth := w;
     binHeight := h;
     pspacing := match s with Some v => v | None => 0 end;
     freeRectangles := [ mkRect 0 0 w h ] |}.

(** [isContained(rect, container)]. *)
Definition isContained (rect container : FreeRect) : bool :=
  (rx container <=? rx rect) &&
  (ry container <=? ry rect) &&
  (rx rect + rwidth rect <=? rx container + rwidth container) &&
  (ry rect + rheight rect <=? ry container + rheight container).

(** The inner loop of [mergeRectangles]: is [rect], sitting at index [i],
    contained in an element of [others] at an index different from [i];
    [j] is the index of the head of [others]. *)
Fixpoint containedInOther (rect : FreeRect) (i : nat) (others : list FreeRect)
         (j : nat) : bool :=
  match others with
  | [] => false
  | other :: rest =>
      if Nat.eqb i j then containedInOther rect i rest (S j)
      else if isContained rect other then true
           else containedInOther rect i rest (S j)
  end.

(** [Array.prototype.filter] with the index passed to the callback. *)
Fixpoint filteri (A : Type) (f : A -> nat -> bool) (l : list A) (i : nat)
  : list A :=
  match l with
  | [] => []
  | a :: rest =>
      if f a i then a :: filteri f rest (S i) else filteri f rest (S i)
  end.

(** [mergeRectangles()]: the callback reads the array as it was before
    the filter. *)
Definition mergeRectangles (rs : list FreeRect) : list FreeRect :=
  filteri (fun rect i => negb (containedInOther rect i rs 0)) rs 0.

(** [splice(index, 1)] at a non-negative index. *)
Fixpoint removeAt (A : Type) (i : nat) (l : list A) : list A :=
  match l, i with
  | [], _ => []
  | _ :: rest, O => rest
  | a :: rest, S k => a :: removeAt k rest
  end.

(** [splice(index, 1)]: a negative index counts from the end of the
    array (and is clamped at its start). *)
Definition splice1 (A : Type) (index : Z) (l : list A) : list A :=
  if index <? 0
  then removeAt (Z.to_nat (Z.max (Z.of_nat (length l) + index) 0)) l
  else removeAt (Z.to_nat index) l.

(** [push] of the right remainder, when [rightWidth > 0]. *)
Definition pushRight (freeRect : FreeRect) (usedWidth : Z)
           (rs : list FreeRect) : list FreeRect :=
  let rightWidth := rwidth freeRect - usedWidth in
  if 0 <? rightWidth
  then rs ++ [ mkRect (rx freeRect + usedWidth) (ry freeRect)
                      rightWidth (rheight freeRect) ]
  else rs.

(** [push] of the bottom remainder, when [bottomHeight > 0]. *)
Definition pushBottom (freeRect : FreeRect) (usedWidth usedHeight : Z)
           (rs : list FreeRect) : list FreeRect :=
  let bottomHeight := rheight freeRect - usedHeight in
  if 0 <? bottomHeight
  then rs ++ [ mkRect (rx freeRect) (ry freeRect + usedHeight)
                      usedWidth bottomHeight ]
  else rs.

(** [splitFreeNode(freeRect, usedWidth, usedHeight, index)], on the array
    of free rectangles. *)
Definition splitFreeNode (rs : list FreeRect) (freeRect : FreeRect)
           (usedWidth usedHeight : Z) (index : Z) : list FreeRect :=
  mergeRectangles
    (pushBottom freeRect usedWidth usedHeight
       (pushRight freeRect usedWidth (splice1 index rs))).

(** The three loop variables of [insert]; [None] in [bestShortSideFit]
    is [Infinity]. *)
Record Best := mkBest {
  bestRect : option FreeRect;
  bestIndex : Z;
  bestShortSideFit : option Z
}.

Definition initBest : Best :=
  {| bestRect := None; bestIndex := -1; bestShortSideFit := None |}.

(** [a < b] where [b] may be [Infinity]. *)
Definition ltInf (a : Z) (b : option Z) : bool :=
  match b with
  | None => true
  | Some v => a <? v
  end.

Definition fits (w h : Z) (rect : FreeRect) : bool :=
  (w <=? rwidth rect) && (h <=? rheight rect).

Definition shortSideFit (w h : Z) (rect : FreeRect) : Z :=
  Z.min (rwidth rect - w) (rheight rect - h).

(** The search loop of [insert], from index [i] on. *)
Fixpoint scan (w h : Z) (rs : list FreeRect) (i : Z) (b : Best) : Best :=
  match rs with
  | [] => b
  | rect :: rest =>
      let b' :=
        if fits w h rect
        then if ltInf (shortSideFit w h rect) (bestShortSideFit b)
             then {| bestRect := Some rect;
                     bestIndex := i;
                     bestShortSideFit := Some (shortSideFit w h rect) |}
             else b
        else b in
      scan w h rest (i + 1) b'
  end.

(** [insert(width, height, id)]: the returned object, if any, and the
    packer afterwards. *)
Definition insert (Id : Type) (p : GuillouinePacker) (wd ht : Z) (i : Id)
  : option (Slot Id) * GuillouinePacker :=
  let w := wd + pspacing p in
  let h := ht + pspacing p in
  let b := scan w h (freeRectangles p) 0 initBest in
  match bestRect b with
  | None => (None, p)
  | Some r =>
      (Some (mkSlot i (rx r) (ry r) wd ht),
       {| binWidth := binWidth p;
          binHeight := binHeight p;
          pspacing := pspacing p;
          freeRectangles :=
            splitFreeNode (freeRectangles p) r w h (bestIndex b) |})
  end.

(** ** NestingEngine *)

(** [constructor(options = {})]. *)
Definition newEngine (options : Options) : NestingEngine :=
  {| spacing := num_or (opt_spacing options) 10;
     allowRotation := bool_or (opt_allowRotation options) false;
     targetWidth := num_or (opt_targetWidth options) 1000;
     targetHeight := num_or (opt_targetHeight options) 1000 |}.

(** The empty options object [{}]. *)
Definition noOptions : Options := mkOptions None None None None.

Section Engine.

Variables Id Payload : Type.

Local Abbreviation item := (Item Id Payload).
Local Abbreviation placement := (Placement Id Payload).

(** The comparator of the sort:
    [(b.width * b.height) - (a.width * a.height)]. *)
Definition compareArea (a b : item) : Z :=
  width b * height b - width a * height a.

(** [Array.prototype.sort] is stable: an element moves behind another one
    only when the comparator is positive. *)
Fixpoint insertSorted (a : item) (l : list item) : list item :=
  match l with
  | [] => [a]
  | b :: rest =>
      if 0 <? compareArea a b then b :: insertSorted a rest
      else a :: b :: rest
  end.

Definition sortItems (items : list item) : list item :=
  fold_right insertSorted [] items.

(** The two insertion attempts for one item of the loop of [nest]; the
    boolean is [placement.rotated] (absent reads as false). *)
Definition tryPlace (e : NestingEngine) (p : GuillouinePacker) (it : item)
  : option (Slot Id * bool) * GuillouinePacker :=
  match insert p (width it) (height it) (id it) with
  | (Some s, p1) => (Some (s, false), p1)
  | (None, p1) =>
      if allowRotation e && negb (width it =? height it)
      then match insert p1 (height it) (width it) (id it) with
           | (Some s, p2) => (Some (s, true), p2)
           | (None, p2) => (None, p2)
           end
      else (None, p1)
  end.

(** [{ ...placement, originalItem: item.originalItem, rotated }]. *)
Definition mkResult (s : Slot Id) (rot : bool) (it : item) : placement :=
  mkPlacement (sid s) (sx s) (sy s) (swidth s) (sheight s)
              (originalItem it) rot.

(** The placement loop of [nest] over the sorted items, threading the
    packer and the two arrays [placements] and [unplacedItems]. *)
Fixpoint placeAll (e : NestingEngine) (p : GuillouinePacker)
         (sorted : list item) (placements : list placement)
         (unplacedItems : list item)
  : list placement * list item * GuillouinePacker :=
  match sorted with
  | [] => (placements, unplacedItems, p)
  | it :: rest =>
      match tryPlace e p it with
      | (Some (s, rot), p') =>
          placeAll e p' rest (placements ++ [mkResult s rot it])
                   unplacedItems
      | (None, p') =>
          placeAll e p' rest placements (unplacedItems ++ [it])
      end
  end.

(** [calculateBounds(placements)]: the pair [(maxX, maxY)]. *)
Definition calculateBounds (placements : list placement) : Z * Z :=
  fold_left
    (fun b pl =>
       (Z.max (fst b) (px pl + pwidth pl), Z.max (snd b) (py pl + pheight pl)))
    placements (0, 0).

(** The engine built for the retry. *)
Definition expandedEngine (e : NestingEngine) (placements : list placement)
  : NestingEngine :=
  let bounds := calculateBounds placements in
  let expandedWidth := Z.max (targetWidth e) (fst bounds + 100) in
  let expandedHeight := Z.max (targetHeight e) (snd bounds + 100) in
  newEngine {| opt_spacing := Some (spacing e);
               opt_allowRotation := Some (allowRotation e);
               opt_targetWidth := Some expandedWidth;
               opt_targetHeight := Some expandedHeight |}.

(** One packing pass of [nest] on a fresh packer. *)
Definition attempt (e : NestingEngine) (items : list item)
  : list placement * list item :=
  fst (placeAll e
         (newPacker (targetWidth e) (targetHeight e) (Some (spacing e)))
         (sortItems items) [] []).

(** Does [nest] retry after this pass? *)
Definition retries (pass : list placement * list item) : bool :=
  (0 <? Z.of_nat (length (snd pass))) && (0 <? Z.of_nat (length (fst pass))).

(** [nest(items)] with the engine whose pass produced the returned array.
    [fuel] bounds the depth of the recursion; [None] means the bound was
    reached. *)
Fixpoint nestRun (fuel : nat) (e : NestingEngine) (items : list item)
  : option (NestingEngine * list placement) :=
  match items with
  | [] => Some (e, [])
  | _ =>
      let pass := attempt e items in
      if retries pass
      then match fuel with
           | O => None
           | S fuel' => nestRun fuel' (expandedEngine e (fst pass)) items
           end
      else Some (e, fst pass)
  end.

(** [nest(items)]. *)
Definition nest (fuel : nat) (e : NestingEngine) (items : list item)
  : option (list placement) :=
  option_map snd (nestRun fuel e items).

End Engine.

(** ** Geometry *)








(** The input contract on items: positive dimensions. *)
Definition positiveItem (Id Payload : Type) (it : Item Id Payload) : Prop :=
  0 < width it /\ 0 < height it.

(** ** Best Short Side Fit *)

(** [r], at index [k] of [rs], is the Best-Short-Side-Fit choice for the
    footprint [(w, h)]: it admits the footprint, no candidate has a smaller
    score, and every candidate before it has a strictly larger one. *)
Definition selected (w h : Z) (rs : list FreeRect) (k : nat) (r : FreeRect)
  : Prop :=
  nth_error rs k = Some r /\
  fits w h r = true /\
  (forall j r', nth_error rs j = Some r' -> fits w h r' = true ->
                shortSideFit w h r <= shortSideFit w h r') /\
  (forall j r', (j < k)%nat -> nth_error rs j = Some r' ->
                fits w h r' = true ->
                shortSideFit w h r < shortSideFit w h r').

(** The loop invariant of the search of [insert], after the prefix [pre]
    of the free rectangles. *)
Definition bestOk (w h : Z) (pre : list FreeRect) (b : Best) : Prop :=
  match bestRect b with
  | None =>
      bestShortSideFit b = None /\
      Forall (fun r => fits w h r = false) pre
  | Some r =>
      exists k, bestIndex b = Z.of_nat k /\
                bestShortSideFit b = Some (shortSideFit w h r) /\
                selected w h pre k r
  end.


(** A sequence of [insert(width, height, id)] calls on one packer. *)
Fixpoint insertAll (Id : Type) (p : GuillouinePacker)
         (calls : list (Z * Z * Id)) : GuillouinePacker :=
  match calls with
  | [] => p
  | (wd, ht, i) :: rest => insertAll (snd (insert p wd ht i)) rest
  end.

(** How a returned placement relates to the item it was made from. *)
Definition placedFrom (Id Payload : Type) (e : NestingEngine)
           (it : Item Id Payload) (pl : Placement Id Payload) : Prop :=
  pid pl = id it /\
  poriginalItem pl = originalItem it /\
  ((rotated pl = false /\ pwidth pl = width it /\ pheight pl = height it) \/
   (rotated pl = true /\ allowRotation e = true /\
    width it <> height it /\
    pwidth pl = height it /\ pheight pl = width it)).

(** ** Sample runs *)

(** A narrow region with rotation enabled, and two items of which the
    larger only fits after rotation. *)
Definition narrowOptions : Options :=
  mkOptions (Some 1) (Some true) (Some 100) (Some 30).

Definition narrowItems : list (Item nat unit) :=
  [ mkItem 1%nat 20 50 tt; mkItem 2%nat 10 10 tt ].

Definition narrowResult : list (Placement nat unit) :=
  [ mkPlacement 1%nat 0 0 50 20 tt true;
    mkPlacement 2%nat 51 0 10 10 tt false ].

(** Two 600 x 600 items in the default 1000 x 1000 region. *)
Definition twoBigItems : list (Item nat unit) :=
  [ mkItem 1%nat 600 600 tt; mkItem 2%nat 600 600 tt ].

(** Two 100 x 50 items, for an engine asked for no spacing. *)
Definition zeroSpacingOptions : Options :=
  mkOptions (Some 0) None None None.

Definition twoSmallItems : list (Item nat unit) :=
  [ mkItem 1%nat 100 50 tt; mkItem 2%nat 100 50 tt ].

(** A packer after one insertion, and calls on a fresh one. *)
Definition usedPacker : GuillouinePacker :=
  snd (insert (newPacker 1000 1000 (Some 10)) 100 50 1%nat).


(** ** LayoutApplier (src/core/layoutApplier.js) *)

(** A JavaScript number that may be infinite: the accumulators of
    [calculateFinalBounds] start at [Infinity] and [-Infinity]. *)
Inductive JSNum :=
| NaN
| NegInf
| Fin (z : Z)
| PosInf.

(** [Math.min(a, z)] and [Math.max(a, z)] for a finite [z]. *)
Definition jsMin (a : JSNum) (z : Z) : JSNum :=
  match a with
  | NaN => NaN
  | NegInf => NegInf
  | Fin v => Fin (Z.min v z)
  | PosInf => Fin z
  end.

Definition jsMax (a : JSNum) (z : Z) : JSNum :=
  match a with
  | NaN => NaN
  | NegInf => Fin z
  | Fin v => Fin (Z.max v z)
  | PosInf => PosInf
  end.

(** [a - b]. *)
Definition jsSub (a b : JSNum) : JSNum :=
  match a, b with
  | NaN, _ | _, NaN => NaN
  | Fin x, Fin y => Fin (x - y)
  | PosInf, PosInf | NegInf, NegInf => NaN
  | PosInf, _ => PosInf
  | NegInf, _ => NegInf
  | Fin _, PosInf => NegInf
  | Fin _, NegInf => PosInf
  end.

(** The object [calculateFinalBounds] returns. *)
Record FinalBounds := mkFinalBounds {
  fb_left : JSNum;
  fb_top : JSNum;
  fb_right : JSNum;
  fb_bottom : JSNum;
  fb_width : JSNum;
  fb_height : JSNum
}.

(** The four accumulators [minX], [minY], [maxX], [maxY]. *)
Record Extremes := mkExtremes {
  minX : JSNum;
  minY : JSNum;
  maxX : JSNum;
  maxY : JSNum
}.

(** What the applier does to the host document, in order:
    [doc.selection = null], [this.rotateItem(item, degrees)],
    [this.moveItem(item, newLeft, newTop)] and the assignment of
    [item.note] with the rounded coordinates. *)
Inductive Command (H : Type) :=
| CDeselect
| CRotate (item : H) (degrees : Z)
| CMove (item : H) (newLeft newTop : Z)
| CNote (item : H) (x y : Z).

Arguments CDeselect {H}.

(** A call that returns or throws [new Error(message)]. *)
Inductive Outcome (A : Type) :=
| Thrown (message : string)
| Returned (value : A).

Arguments Thrown {A} message.

(** The [options] of [applyLayout]; [None] is an absent property (for
    [artboardIndex], also [null]). *)
Record LayoutOptions := mkLayoutOptions {
  lo_artboardIndex : option Z;
  lo_offsetX : option Z;
  lo_offsetY : option Z
}.

(** [array[index]] for a numeric index: [undefined] off the array. *)
Definition jsIndex (A : Type) (l : list A) (index : Z) : option A :=
  if index <? 0 then None else nth_error l (Z.to_nat index).

(** The [for (i = 0; i < length; i += batchSize)] loop of [applyLayout]
    with [slice(i, i + batchSize)]; the loop runs at most [length]
    times, which [fuel] counts. *)
Fixpoint batchesFrom (A : Type) (batchSize fuel i : nat) (l : list A)
  : list (list A) :=
  match fuel with
  | O => []
  | S fuel' =>
      if (i <? length l)%nat
      then firstn batchSize (skipn i l)
           :: batchesFrom batchSize fuel' (i + batchSize) l
      else []
  end.

Section Layout.

Variables Id H : Type.

(** Is [item.name] truthy (a non-empty string)? *)
Variable hasName : H -> bool.

(** The step of the loop of [calculateFinalBounds]. *)
Definition boundsStep (baseX baseY : Z) (acc : Extremes)
           (p : Placement Id (option H)) : Extremes :=
  let x := baseX + px p in
  let y := baseY - py p in
  {| minX := jsMin (minX acc) x;
     minY := jsMin (minY acc) (y - pheight p);
     maxX := jsMax (maxX acc) (x + pwidth p);
     maxY := jsMax (maxY acc) y |}.

(** [calculateFinalBounds(placements, baseX, baseY)]. *)
Definition calculateFinalBounds (placements : list (Placement Id (option H)))
           (baseX baseY : Z) : FinalBounds :=
  let acc := fold_left (boundsStep baseX baseY) placements
                       (mkExtremes PosInf PosInf NegInf NegInf) in
  {| fb_left := minX acc;
     fb_top := maxY acc;
     fb_right := maxX acc;
     fb_bottom := minY acc;
     fb_width := jsSub (maxX acc) (minX acc);
     fb_height := jsSub (maxY acc) (minY acc) |}.

(** [processBatch(placements, baseX, baseY)]: a placement without
    [originalItem] is skipped. *)
Fixpoint processBatch (placements : list (Placement Id (option H)))
         (baseX baseY : Z) : list (Command H) :=
  match placements with
  | [] => []
  | placement :: rest =>
      match poriginalItem placement with
      | None => processBatch rest baseX baseY
      | Some item =>
          let newLeft := baseX + px placement in
          let newTop := baseY - py placement in
          (if rotated placement then [CRotate item 90] else []) ++
          [CMove item newLeft newTop] ++
          (if hasName item
           then [CNote item (px placement) (py placement)] else []) ++
          processBatch rest baseX baseY
      end
  end.

(** The base point of [applyLayout]: the offsets, moved to the artboard's
    left and top edge when [artboardIndex] names an artboard;
    [artboards] holds the [artboardRect] arrays [[left, top, right,
    bottom]] of the document. *)
Definition layoutBase (artboards : list (Z * Z * Z * Z))
           (options : LayoutOptions) : Z * Z :=
  let offsetX := match lo_offsetX options with Some v => v | None => 0 end in
  let offsetY := match lo_offsetY options with Some v => v | None => 0 end in
  match lo_artboardIndex options with
  | None => (offsetX, offsetY)
  | Some index =>
      match jsIndex artboards index with
      | None => (offsetX, offsetY)
      | Some (abLeft, abTop, _, _) => (offsetX + abLeft, offsetY + abTop)
      end
  end.

(** [applyLayout(placements, options)] on the active document, if any:
    the commands issued and the returned [{ success, count }]. *)
Definition applyLayout (doc : option (list (Z * Z * Z * Z)))
           (placements : list (Placement Id (option H)))
           (options : LayoutOptions)
  : Outcome (list (Command H) * (bool * nat)) :=
  match placements with
  | [] => Thrown "No placements to apply"
  | _ =>
      match doc with
      | None => Thrown "No active document"
      | Some artboards =>
          let base := layoutBase artboards options in
          Returned
            (CDeselect ::
             flat_map (fun batch => processBatch batch (fst base) (snd base))
                      (batchesFrom 50 (length placements) 0 placements),
             (true, length placements))
      end
  end.

(** The [moveItem] calls of a command sequence. *)
Definition moves (cs : list (Command H)) : list (H * Z * Z) :=
  flat_map (fun c => match c with
                     | CMove item l t => [(item, l, t)]
                     | _ => []
                     end) cs.

End Layout.

(** ** ImageCollector and the plugin (validateImages, executeNesting) *)

(** The fields of an image record that [validateImages] and
    [executeNesting] read. *)
Record Image (Id H : Type) := mkImage {
  img_id : Id;
  img_name : string;
  img_originalItem : H;
  img_width : Z;
  img_height : Z;
  img_locked : bool;
  img_hidden : bool
}.

(** The [settings] of the plugin that [executeNesting] passes on. *)
Record Settings := mkSettings {
  set_spacing : Z;
  set_allowRotation : bool;
  set_targetWidth : Z;
  set_targetHeight : Z
}.

Section Plugin.

Variables Id H : Type.

(** The step of the loop of [validateImages] on the pair
    [(valid, invalid)]. *)
Definition validateStep (acc : list (Image Id H) * list (string * string))
           (img : Image Id H)
  : list (Image Id H) * list (string * string) :=
  if (0 <? img_width img) && (0 <? img_height img) &&
     negb (img_locked img) && negb (img_hidden img)
  then (fst acc ++ [img], snd acc)
  else (fst acc,
        snd acc ++
        [(img_name img,
          if (img_width img <=? 0) || (img_height img <=? 0)
          then "Invalid dimensions"%string
          else if img_locked img then "Locked"%string
               else "Hidden"%string)]).

(** [validateImages(images)]: [{ valid, invalid }], the latter as pairs
    [(name, reason)]. *)
Definition validateImages (images : list (Image Id H))
  : list (Image Id H) * list (string * string) :=
  fold_left validateStep images ([], []).

(** The items [executeNesting] prepares from the valid images. *)
Definition pluginItems (valid : list (Image Id H)) : list (Item Id H) :=
  map (fun img => mkItem (img_id img) (img_width img) (img_height img)
                         (img_originalItem img)) valid.

(** The engine [executeNesting] constructs; [artboard] is the
    [(width, height)] of the current artboard, if there is one. *)
Definition pluginEngine (settings : Settings) (artboard : option (Z * Z))
  : NestingEngine :=
  newEngine
    {| opt_spacing := Some (set_spacing settings);
       opt_allowRotation := Some (set_allowRotation settings);
       opt_targetWidth :=
         Some (match artboard with
               | Some ab => fst ab
               | None => set_targetWidth settings
               end);
       opt_targetHeight :=
         Some (match artboard with
               | Some ab => snd ab
               | None => set_targetHeight settings
               end) |}.

End Plugin.

(** ** ImageCollector (imageCollector.js) *)

(** A page item of the host document: its [typename] and, for a
    container, its [pageItems]. *)
#[local] Unset Elimination Schemes.
Inductive PageItem :=
| PageItemOf (typename : string) (pageItems : list PageItem).
#[local] Set Elimination Schemes.

Definition typename (it : PageItem) : string :=
  match it with PageItemOf tn _ => tn end.

Definition pageItems (it : PageItem) : list PageItem :=
  match it with PageItemOf _ children => children end.

(** A layer of the document. *)
Record Layer := mkLayer {
  layer_locked : bool;
  layer_visible : bool;
  layer_pageItems : list PageItem
}.

(** The visit of one item by [traverse] in [getAllItems]: the item is
    pushed, and a [GroupItem] is traversed in turn. *)
Fixpoint traverseItem (it : PageItem) : list PageItem :=
  match it with
  | PageItemOf tn children =>
      it :: (if String.eqb tn "GroupItem"
             then flat_map traverseItem children
             else [])
  end.

(** [traverse(container)], on the page items of the container. *)
Definition traverse (items : list PageItem) : list PageItem :=
  flat_map traverseItem items.

(** [getAllItems(doc)], on the layers of the document. *)
Definition getAllItems (layers : list Layer) : list PageItem :=
  flat_map (fun layer =>
              if negb (layer_locked layer) && layer_visible layer
              then traverse (layer_pageItems layer)
              else []) layers.

(** [x] is [top] or lies in [top] through nested [GroupItem]s. *)
Inductive nestedIn : PageItem -> PageItem -> Prop :=
| nested_here (x : PageItem) : nestedIn x x
| nested_deeper (g c x : PageItem) :
    typename g = "GroupItem"%string -> In c (pageItems g) ->
    nestedIn c x -> nestedIn g x.

(** ** Areas *)

(** The sort key of [nest]: [width * height]. *)
Definition itemArea (Id Payload : Type) (it : Item Id Payload) : Z :=
  width it * height it.

(** ** The engine on binary64 numbers

    The same code with the numbers of the source as they are: IEEE 754
    binary64 values, every sum, difference and product rounded. The
    definitions follow those above line by line. *)

Module Double.

Local Open Scope float_scope.

Record FreeRect := mkRect {
  rx : float;
  ry : float;
  rwidth : float;
  rheight : float
}.

Record Slot (Id : Type) := mkSlot {
  sid : Id;
  sx : float;
  sy : float;
  swidth : float;
  sheight : float
}.

Record Item (Id Payload : Type) := mkItem {
  id : Id;
  width : float;
  height : float;
  originalItem : Payload
}.

Record Placement (Id Payload : Type) := mkPlacement {
  pid : Id;
  px : float;
  py : float;
  pwidth : float;
  pheight : float;
  poriginalItem : Payload;
  rotated : bool
}.

Record GuillouinePacker := mkPacker {
  binWidth : float;
  binHeight : float;
  pspacing : float;
  freeRectangles : list FreeRect
}.

Record Options := mkOptions {
  opt_spacing : option float;
  opt_allowRotation : option bool;
  opt_targetWidth : option float;
  opt_targetHeight : option float
}.

Record NestingEngine := mkEngine {
  spacing : float;
  allowRotation : bool;
  targetWidth : float;
  targetHeight : float
}.

(** The falsy numbers: [0], [-0] and [NaN]. *)
Definition falsy (v : float) : bool :=
  PrimFloat.eqb v 0 || PrimFloat.is_nan v.

(** [a || d] on an optional number. *)
Definition num_or (a : option float) (d : float) : float :=
  match a with
  | Some v => if falsy v then d else v
  | None => d
  end.

(** [Math.min(a, b)]: [NaN] if either is, and [-0] below [+0]. *)
Definition jsMin (a b : float) : float :=
  if PrimFloat.is_nan a || PrimFloat.is_nan b then nan
  else if a <? b then a
       else if b <? a then b
            else match PrimFloat.classify a with
                 | NZero => a
                 | _ => b
                 end.

(** [Math.max(a, b)]: [NaN] if either is, and [+0] above [-0]. *)
Definition jsMax (a b : float) : float :=
  if PrimFloat.is_nan a || PrimFloat.is_nan b then nan
  else if a <? b then b
       else if b <? a then a
            else match PrimFloat.classify a with
                 | PZero => a
                 | _ => b
                 end.

(** [constructor(width, height, spacing = 0)]. *)
Definition newPacker (w h : float) (s : option float) : GuillouinePacker :=
  {| binWidth := w;
     binHeight := h;
     pspacing := match s with Some v => v | None => 0 end;
     freeRectangles := [ mkRect 0 0 w h ] |}.

(** [isContained(rect, container)]. *)
Definition isContained (rect container : FreeRect) : bool :=
  (rx container <=? rx rect) &&
  (ry container <=? ry rect) &&
  (rx rect + rwidth rect <=? rx container + rwidth container) &&
  (ry rect + rheight rect <=? ry container + rheight container).

Fixpoint containedInOther (rect : FreeRect) (i : nat) (others : list FreeRect)
         (j : nat) : bool :=
  match others with
  | [] => false
  | other :: rest =>
      if Nat.eqb i j then containedInOther rect i rest (S j)
      else if isContained rect other then true
           else containedInOther rect i rest (S j)
  end.

(** [mergeRectangles()]. *)
Definition mergeRectangles (rs : list FreeRect) : list FreeRect :=
  filteri (fun rect i => negb (containedInOther rect i rs 0)) rs 0.

Definition pushRight (freeRect : FreeRect) (usedWidth : float)
           (rs : list FreeRect) : list FreeRect :=
  let rightWidth := rwidth freeRect - usedWidth in
  if 0 <? rightWidth
  then rs ++ [ mkRect (rx freeRect + usedWidth) (ry freeRect)
                      rightWidth (rheight freeRect) ]
  else rs.

Definition pushBottom (freeRect : FreeRect) (usedWidth usedHeight : float)
           (rs : list FreeRect) : list FreeRect :=
  let bottomHeight := rheight freeRect - usedHeight in
  if 0 <? bottomHeight
  then rs ++ [ mkRect (rx freeRect) (ry freeRect + usedHeight)
                      usedWidth bottomHeight ]
  else rs.

(** [splitFreeNode(freeRect, usedWidth, usedHeight, index)]. *)
Definition splitFreeNode (rs : list FreeRect) (freeRect : FreeRect)
           (usedWidth usedHeight : float) (index : Z) : list FreeRect :=
  mergeRectangles
    (pushBottom freeRect usedWidth usedHeight
       (pushRight freeRect usedWidth (splice1 index rs))).

(** The loop variables of [insert]; [bestShortSideFit] starts at
    [Infinity]. *)
Record Best := mkBest {
  bestRect : option FreeRect;
  bestIndex : Z;
  bestShortSideFit : float
}.

Definition initBest : Best :=
  {| bestRect := None; bestIndex := (-1)%Z; bestShortSideFit := infinity |}.

Definition fits (w h : float) (rect : FreeRect) : bool :=
  (w <=? rwidth rect) && (h <=? rheight rect).

Definition shortSideFit (w h : float) (rect : FreeRect) : float :=
  jsMin (rwidth rect - w) (rheight rect - h).

Fixpoint scan (w h : float) (rs : list FreeRect) (i : Z) (b : Best) : Best :=
  match rs with
  | [] => b
  | rect :: rest =>
      let b' :=
        if fits w h rect
        then if shortSideFit w h rect <? bestShortSideFit b
             then {| bestRect := Some rect;
                     bestIndex := i;
                     bestShortSideFit := shortSideFit w h rect |}
             else b
        else b in
      scan w h rest (i + 1)%Z b'
  end.

(** [insert(width, height, id)]. *)
Definition insert (Id : Type) (p : GuillouinePacker) (wd ht : float) (i : Id)
  : option (Slot Id) * GuillouinePacker :=
  let w := wd + pspacing p in
  let h := ht + pspacing p in
  let b := scan w h (freeRectangles p) 0%Z initBest in
  match bestRect b with
  | None => (None, p)
  | Some r =>
      (Some (mkSlot i (rx r) (ry r) wd ht),
       {| binWidth := binWidth p;
          binHeight := binHeight p;
          pspacing := pspacing p;
          freeRectangles :=
            splitFreeNode (freeRectangles p) r w h (bestIndex b) |})
  end.

(** A sequence of [insert] calls on one packer. *)
Fixpoint insertAll (Id : Type) (p : GuillouinePacker)
         (calls : list (float * float * Id)) : GuillouinePacker :=
  match calls with
  | [] => p
  | (wd, ht, i) :: rest => insertAll (snd (insert p wd ht i)) rest
  end.

(** [constructor(options = {})]. *)
Definition newEngine (options : Options) : NestingEngine :=
  {| spacing := num_or (opt_spacing options) 10;
     allowRotation := bool_or (opt_allowRotation options) false;
     targetWidth := num_or (opt_targetWidth options) 1000;
     targetHeight := num_or (opt_targetHeight options) 1000 |}.

Definition noOptions : Options := mkOptions None None None None.

Section Engine.

Variables Id Payload : Type.

Definition compareArea (a b : Item Id Payload) : float :=
  width b * height b - width a * height a.

Fixpoint insertSorted (a : Item Id Payload) (l : list (Item Id Payload))
  : list (Item Id Payload) :=
  match l with
  | [] => [a]
  | b :: rest =>
      if 0 <? compareArea a b then b :: insertSorted a rest
      else a :: b :: rest
  end.

Definition sortItems (items : list (Item Id Payload))
  : list (Item Id Payload) :=
  fold_right insertSorted [] items.

Definition tryPlace (e : NestingEngine) (p : GuillouinePacker)
           (it : Item Id Payload)
  : option (Slot Id * bool) * GuillouinePacker :=
  match insert p (width it) (height it) (id it) with
  | (Some s, p1) => (Some (s, false), p1)
  | (None, p1) =>
      if allowRotation e && negb (PrimFloat.eqb (width it) (height it))
      then match insert p1 (height it) (width it) (id it) with
           | (Some s, p2) => (Some (s, true), p2)
           | (None, p2) => (None, p2)
           end
      else (None, p1)
  end.

Definition mkResult (s : Slot Id) (rot : bool) (it : Item Id Payload)
  : Placement Id Payload :=
  mkPlacement (sid s) (sx s) (sy s) (swidth s) (sheight s)
              (originalItem it) rot.

Fixpoint placeAll (e : NestingEngine) (p : GuillouinePacker)
         (sorted : list (Item Id Payload))
         (placements : list (Placement Id Payload))
         (unplacedItems : list (Item Id Payload))
  : list (Placement Id Payload) * list (Item Id Payload) * GuillouinePacker :=
  match sorted with
  | [] => (placements, unplacedItems, p)
  | it :: rest =>
      match tryPlace e p it with
      | (Some (s, rot), p') =>
          placeAll e p' rest (placements ++ [mkResult s rot it])
                   unplacedItems
      | (None, p') =>
          placeAll e p' rest placements (unplacedItems ++ [it])
      end
  end.

Definition calculateBounds (placements : list (Placement Id Payload))
  : float * float :=
  fold_left
    (fun b pl =>
       (jsMax (fst b) (px pl + pwidth pl), jsMax (snd b) (py pl + pheight pl)))
    placements (0, 0).

Definition expandedEngine (e : NestingEngine)
           (placements : list (Placement Id Payload)) : NestingEngine :=
  let bounds := calculateBounds placements in
  let expandedWidth := jsMax (targetWidth e) (fst bounds + 100) in
  let expandedHeight := jsMax (targetHeight e) (snd bounds + 100) in
  newEngine {| opt_spacing := Some (spacing e);
               opt_allowRotation := Some (allowRotation e);
               opt_targetWidth := Some expandedWidth;
               opt_targetHeight := Some expandedHeight |}.

Definition attempt (e : NestingEngine) (items : list (Item Id Payload))
  : list (Placement Id Payload) * list (Item Id Payload) :=
  fst (placeAll e
         (newPacker (targetWidth e) (targetHeight e) (Some (spacing e)))
         (sortItems items) [] []).

Definition retries (pass : list (Placement Id Payload) *
                           list (Item Id Payload)) : bool :=
  (0 <? Z.of_nat (length (snd pass)))%Z &&
  (0 <? Z.of_nat (length (fst pass)))%Z.

Fixpoint nestRun (fuel : nat) (e : NestingEngine)
         (items : list (Item Id Payload))
  : option (NestingEngine * list (Placement Id Payload)) :=
  match items with
  | [] => Some (e, [])
  | _ =>
      let pass := attempt e items in
      if retries pass
      then match fuel with
           | O => None
           | S fuel' => nestRun fuel' (expandedEngine e (fst pass)) items
           end
      else Some (e, fst pass)
  end.

Definition nest (fuel : nat) (e : NestingEngine)
           (items : list (Item Id Payload))
  : option (list (Placement Id Payload)) :=
  option_map snd (nestRun fuel e items).

End Engine.

(** The edges of an image, for [checkCollision]. *)
Record Box := mkBox {
  box_left : float;
  box_top : float;
  box_right : float;
  box_bottom : float
}.

(** [checkCollision(img1, img2, spacing = 0)]; [a > b] is [b < a]. *)
Definition checkCollision (img1 img2 : Box) (spacing : option float) : bool :=
  let padding := match spacing with Some s => s | None => 0 end / 2 in
  negb ((box_right img1 + padding <? box_left img2 - padding) ||
        (box_right img2 + padding <? box_left img1 - padding) ||
        (box_top img2 + padding <? box_bottom img1 - padding) ||
        (box_top img1 + padding <? box_bottom img2 - padding)).

End Double.

(** ** Integers as binary64 numbers *)









(** ** The value of a binary64 number *)

(** The rational a finite binary64 number stands for. *)
Definition exact (f : float) : option Q :=
  match Prim2SF f with
  | S754_zero _ => Some 0%Q
  | S754_finite s m e =>
      Some (inject_Z (if s then Zneg m else Zpos m) * Qpower (2 # 1) e)%Q
  | _ => None
  end.













(** ** Runs on binary64 numbers *)

Set Warnings "-inexact-float".





Set Warnings "+inexact-float".

(** ** The objects a caller holds across calls of [nest] *)

(** [array[loc] = x] for an existing element. *)
Fixpoint replaceAt (A : Type) (loc : nat) (x : A) (l : list A) : list A :=
  match l, loc with
  | [], _ => []
  | _ :: rest, O => x :: rest
  | a :: rest, S k => a :: replaceAt k x rest
  end.

Section Store.

Variables Id Payload : Type.

(** The engine objects and the item arrays that exist, by location. *)
Record Store := mkStore {
  engines : list NestingEngine;
  arrays : list (list (Item Id Payload))
}.

(** [[...items]]: a new array with the elements of [items]. *)
Definition copyArray (st : Store) (items : list (Item Id Payload)) : Store :=
  {| engines := engines st; arrays := arrays st ++ [items] |}.

(** The elements of the array at [loc] are overwritten, as [sort] does
    in place. *)
Definition writeArray (st : Store) (loc : nat)
           (elements : list (Item Id Payload)) : Store :=
  {| engines := engines st;
     arrays := replaceAt loc elements (arrays st) |}.

(** [new NestingEngine(...)]. *)
Definition allocEngine (st : Store) (e : NestingEngine) : Store :=
  {| engines := engines st ++ [e]; arrays := arrays st |}.

(** What [Array.prototype.sort] guarantees for the comparator of [nest]
    (ECMAScript 2019): the elements are those of the array, no later
    element compares before an earlier one, and elements that compare
    equal keep their order. *)
Definition sortContract (items sorted : list (Item Id Payload)) : Prop :=
  Permutation sorted items /\
  StronglySorted (fun a b => compareArea a b <= 0) sorted /\
  (forall v, filter (fun it => width it * height it =? v) sorted =
             filter (fun it => width it * height it =? v) items).

(** [this.nest(items)] for the engine at [this] and the array at
    [itemsLoc]: the returned array and the store afterwards. The sort is
    any that meets the contract; it works in place on the copy. *)
Inductive Runs : Store -> nat -> nat -> list (Placement Id Payload) ->
                 Store -> Prop :=
| Runs_empty (st : Store) (this itemsLoc : nat) (e : NestingEngine) :
    nth_error (engines st) this = Some e ->
    nth_error (arrays st) itemsLoc = Some [] ->
    Runs st this itemsLoc [] st
| Runs_return (st st' : Store) (this itemsLoc : nat) (e : NestingEngine)
              (items sorted : list (Item Id Payload))
              (placements : list (Placement Id Payload))
              (unplacedItems : list (Item Id Payload))
              (p : GuillouinePacker) :
    nth_error (engines st) this = Some e ->
    nth_error (arrays st) itemsLoc = Some items ->
    items <> [] ->
    sortContract items sorted ->
    st' = writeArray (copyArray st items) (length (arrays st)) sorted ->
    placeAll e (newPacker (targetWidth e) (targetHeight e) (Some (spacing e)))
             sorted [] [] = (placements, unplacedItems, p) ->
    retries (placements, unplacedItems) = false ->
    Runs st this itemsLoc placements st'
| Runs_retry (st st1 st' : Store) (this itemsLoc : nat) (e : NestingEngine)
             (items sorted : list (Item Id Payload))
             (placements result : list (Placement Id Payload))
             (unplacedItems : list (Item Id Payload))
             (p : GuillouinePacker) :
    nth_error (engines st) this = Some e ->
    nth_error (arrays st) itemsLoc = Some items ->
    items <> [] ->
    sortContract items sorted ->
    st1 = writeArray (copyArray st items) (length (arrays st)) sorted ->
    placeAll e (newPacker (targetWidth e) (targetHeight e) (Some (spacing e)))
             sorted [] [] = (placements, unplacedItems, p) ->
    retries (placements, unplacedItems) = true ->
    Runs (allocEngine st1 (expandedEngine e placements))
         (length (engines st1)) itemsLoc result st' ->
    Runs st this itemsLoc result st'.

End Store.

(** ** Lists *)




Section ListFacts.

Variable A : Type.
Variable R : A -> A -> Prop.
Hypothesis R_sym : forall a b, R a b -> R b a.








End ListFacts.

(** ** The search loop *)

Lemma scan_step w h pre rect b :
  bestOk w h pre b ->
  bestOk w h (pre ++ [rect])
    (if fits w h rect
     then if ltInf (shortSideFit w h rect) (bestShortSideFit b)
          then {| bestRect := Some rect;
                  bestIndex := Z.of_nat (length pre);
                  bestShortSideFit := Some (shortSideFit w h rect) |}
          else b
     else b).
Proof.
  unfold bestOk. intros Hb.
  assert (Hsnoc : forall j r', nth_error (pre ++ [rect]) j = Some r' ->
            (j < length pre)%nat /\ nth_error pre j = Some r' \/
            j = length pre /\ r' = rect).
  { intros j r' Hj. destruct (Nat.lt_ge_cases j (length pre)) as [Hl|Hl].
    - left. rewrite nth_error_app1 in Hj by assumption. auto.
    - right. rewrite nth_error_app2 in Hj by assumption.
      destruct (j - length pre)%nat as [|n] eqn:E; simpl in Hj.
      + split; [lia | congruence].
      + destruct n; discriminate. }
  destruct (fits w h rect) eqn:Hfit.
  - destruct (bestRect b) as [r|] eqn:Hr.
    + destruct Hb as (k & Hk & Hs & Hnth & Hfr & Hmin & Hfirst).
      assert (Hklt : (k < length pre)%nat)
        by (apply nth_error_Some; congruence).
      rewrite Hs. simpl. destruct (Z.ltb_spec (shortSideFit w h rect)
                                      (shortSideFit w h r)) as [Hlt|Hge].
      * simpl. exists (length pre). repeat split; auto.
        -- rewrite nth_error_app2, Nat.sub_diag by lia. reflexivity.
        -- intros j r' Hj Hf. destruct (Hsnoc _ _ Hj) as [[_ Hp]|[_ ->]].
           ++ specialize (Hmin _ _ Hp Hf). lia.
           ++ lia.
        -- intros j r' Hjl Hj Hf. destruct (Hsnoc _ _ Hj) as [[_ Hp]|[? _]].
           ++ specialize (Hmin _ _ Hp Hf). lia.
           ++ lia.
      * rewrite Hr. exists k. repeat split; auto.
        -- rewrite nth_error_app1 by assumption. assumption.
        -- intros j r' Hj Hf. destruct (Hsnoc _ _ Hj) as [[_ Hp]|[_ ->]];
             eauto.
        -- intros j r' Hjl Hj Hf. destruct (Hsnoc _ _ Hj) as [[_ Hp]|[? _]];
             [eauto | lia].
    + destruct Hb as [Hs Hnone]. rewrite Hs. simpl.
      exists (length pre). rewrite Forall_forall in Hnone.
      repeat split; auto.
      * rewrite nth_error_app2, Nat.sub_diag by lia. reflexivity.
      * intros j r' Hj Hf. destruct (Hsnoc _ _ Hj) as [[_ Hp]|[_ ->]].
        -- apply nth_error_In in Hp. apply Hnone in Hp. congruence.
        -- lia.
      * intros j r' Hjl Hj Hf. destruct (Hsnoc _ _ Hj) as [[_ Hp]|[? _]].
        -- apply nth_error_In in Hp. apply Hnone in Hp. congruence.
        -- lia.
  - destruct (bestRect b) as [r|] eqn:Hr.
    + destruct Hb as (k & Hk & Hs & Hnth & Hfr & Hmin & Hfirst).
      assert (Hklt : (k < length pre)%nat)
        by (apply nth_error_Some; congruence).
      exists k. repeat split; auto.
      * rewrite nth_error_app1 by assumption. assumption.
      * intros j r' Hj Hf. destruct (Hsnoc _ _ Hj) as [[_ Hp]|[_ ->]];
          [eauto | congruence].
      * intros j r' Hjl Hj Hf. destruct (Hsnoc _ _ Hj) as [[_ Hp]|[? _]];
          [eauto | lia].
    + destruct Hb as [Hs Hnone]. split; auto.
      apply Forall_app; split; auto.
Qed.

Lemma scan_ok w h rs : forall pre b,
  bestOk w h pre b ->
  bestOk w h (pre ++ rs) (scan w h rs (Z.of_nat (length pre)) b).
Proof.
  induction rs as [|rect rs IH]; intros pre b Hb; simpl.
  - rewrite app_nil_r. assumption.
  - replace (pre ++ rect :: rs) with ((pre ++ [rect]) ++ rs)
      by (rewrite <- app_assoc; reflexivity).
    replace (Z.of_nat (length pre) + 1)
      with (Z.of_nat (length (pre ++ [rect])))
      by (rewrite length_app; simpl; lia).
    apply IH. apply scan_step. assumption.
Qed.

Lemma scan_init w h rs : bestOk w h rs (scan w h rs 0 initBest).
Proof.
  apply (scan_ok w h rs []). unfold bestOk. simpl. auto.
Qed.

(** What [insert] does, in terms of the choice it makes. *)
Lemma insert_cases (Id : Type) (p : GuillouinePacker) (wd ht : Z) (i : Id) :
  let w := wd + pspacing p in
  let h := ht + pspacing p in
  (Forall (fun r => fits w h r = false) (freeRectangles p) /\
   insert p wd ht i = (None, p)) \/
  (exists k r,
     selected w h (freeRectangles p) k r /\
     insert p wd ht i =
       (Some (mkSlot i (rx r) (ry r) wd ht),
        {| binWidth := binWidth p;
           binHeight := binHeight p;
           pspacing := pspacing p;
           freeRectangles :=
             splitFreeNode (freeRectangles p) r w h (Z.of_nat k) |})).
Proof.
  intros w h. unfold insert. fold w h.
  pose proof (scan_init w h (freeRectangles p)) as Hb. unfold bestOk in Hb.
  destruct (bestRect (scan w h (freeRectangles p) 0 initBest)) as [r|].
  - right. destruct Hb as (k & Hk & _ & Hsel). exists k, r. rewrite Hk. auto.
  - left. destruct Hb. auto.
Qed.

(** ** The guillotine split keeps the packer invariant *)


Lemma push_parts r w h l :
  pushBottom r w h (pushRight r w l) =
  l ++ pushBottom r w h (pushRight r w []).
Proof.
  unfold pushBottom, pushRight.
  destruct (0 <? rwidth r - w), (0 <? rheight r - h); simpl;
    rewrite <- ?app_assoc, ?app_nil_r; reflexivity.
Qed.

Lemma fits_le w h r : fits w h r = true -> w <= rwidth r /\ h <= rheight r.
Proof. unfold fits. rewrite andb_true_iff, !Z.leb_le. auto. Qed.


Lemma splice1_nat (A : Type) k (l : list A) :
  splice1 (Z.of_nat k) l = removeAt k l.
Proof.
  unfold splice1. destruct (Z.ltb_spec (Z.of_nat k) 0); [lia|].
  rewrite Nat2Z.id. reflexivity.
Qed.





(** ** The placement loop *)

Section EngineFacts.

Variables Id Payload : Type.

Lemma In_insertSorted (a b : Item Id Payload) l :
  In b (insertSorted a l) -> b = a \/ In b l.
Proof.
  induction l as [|c l IH]; simpl.
  - intros [<-|[]]; auto.
  - destruct (0 <? compareArea a c); simpl; intros [<-|Hb]; auto.
    destruct (IH Hb); auto.
Qed.

Lemma In_sortItems (b : Item Id Payload) items : In b (sortItems items) -> In b items.
Proof.
  induction items as [|a items IH]; simpl; auto.
  intros Hb. apply In_insertSorted in Hb. destruct Hb; auto.
Qed.

Lemma tryPlace_from (e : NestingEngine) p (it : Item Id Payload) :
  match fst (tryPlace e p it) with
  | None => True
  | Some (s, rot) => placedFrom e it (mkResult s rot it)
  end.
Proof.
  unfold tryPlace.
  destruct (insert_cases p (width it) (height it) (id it))
    as [[_ ->]|(k & r & _ & ->)].
  - destruct (allowRotation e) eqn:Hrot; simpl; auto.
    destruct (Z.eqb_spec (width it) (height it)) as [|Hne]; simpl; auto.
    destruct (insert_cases p (height it) (width it) (id it))
      as [[_ ->]|(k & r & _ & ->)]; simpl; auto.
    unfold placedFrom; simpl. do 2 (split; [reflexivity|]).
    right. repeat split; auto.
  - unfold placedFrom; simpl. do 2 (split; [reflexivity|]). left. auto.
Qed.

Lemma placeAll_from (e : NestingEngine) (all : list (Item Id Payload)) sorted :
  forall p placements unplaced,
  incl sorted all ->
  Forall (fun pl => exists it, In it all /\ placedFrom e it pl) placements ->
  Forall (fun pl => exists it, In it all /\ placedFrom e it pl)
         (fst (fst (placeAll e p sorted placements unplaced))).
Proof.
  induction sorted as [|it rest IH]; intros p placements unplaced Hincl Hpl;
    simpl; auto.
  pose proof (tryPlace_from e p it) as Hf.
  assert (Hit : In it all) by (apply Hincl; left; reflexivity).
  assert (Hrest : incl rest all) by (intros x Hx; apply Hincl; right; auto).
  destruct (tryPlace e p it) as [[[s rot]|] p']; simpl in Hf.
  - apply IH; auto. apply Forall_app; split; auto.
    constructor; [|constructor]. eauto.
  - apply IH; auto.
Qed.




Lemma attempt_from (e : NestingEngine) (items : list (Item Id Payload)) :
  Forall (fun pl => exists it, In it items /\ placedFrom e it pl)
         (fst (attempt e items)).
Proof.
  unfold attempt. apply placeAll_from.
  - intros it. apply In_sortItems.
  - constructor.
Qed.

(** ** The retry recursion *)

Lemma nestRun_cons fuel (e : NestingEngine) (it : Item Id Payload) items :
  nestRun fuel e (it :: items) =
  if retries (attempt e (it :: items))
  then match fuel with
       | O => None
       | S fuel' =>
           nestRun fuel' (expandedEngine e (fst (attempt e (it :: items))))
                   (it :: items)
       end
  else Some (e, fst (attempt e (it :: items))).
Proof. destruct fuel; reflexivity. Qed.

Lemma expandedEngine_fields (e : NestingEngine) (pls : list (Placement Id Payload)) :
  allowRotation (expandedEngine e pls) = allowRotation e /\
  (spacing e <> 0 -> spacing (expandedEngine e pls) = spacing e).
Proof.
  unfold expandedEngine, newEngine; simpl. split.
  - destruct (allowRotation e); reflexivity.
  - intros Hs. destruct (Z.eqb_spec (spacing e) 0); congruence.
Qed.

(** The returned array is the placement array of the pass of the final
    engine, which has the policy flags of the first one. *)
Lemma nestRun_final fuel : forall (e e' : NestingEngine) (items : list (Item Id Payload)) ps,
  nestRun fuel e items = Some (e', ps) ->
  ps = fst (attempt e' items) /\
  allowRotation e' = allowRotation e /\
  (spacing e <> 0 -> spacing e' = spacing e).
Proof.
  induction fuel as [|fuel IH]; intros e e' [|it items] ps.
  - intros [= <- <-]. auto.
  - rewrite nestRun_cons.
    destruct (retries (attempt e (it :: items))); [discriminate|].
    intros [= <- <-]. auto.
  - intros [= <- <-]. auto.
  - rewrite nestRun_cons.
    destruct (retries (attempt e (it :: items))).
    + intros Hrun. apply IH in Hrun. destruct Hrun as (Hps & Hrot & Hsp).
      destruct (expandedEngine_fields e (fst (attempt e (it :: items))))
        as [Hrot' Hsp'].
      repeat split; auto; try congruence.
      intros Hs. rewrite Hsp; auto. rewrite Hsp'; auto.
    + intros [= <- <-]. auto.
Qed.

(** More fuel does not change a returned result. *)
Lemma nestRun_more fuel : forall (e : NestingEngine) (items : list (Item Id Payload)) r,
  nestRun fuel e items = Some r ->
  forall fuel', (fuel <= fuel')%nat -> nestRun fuel' e items = Some r.
Proof.
  induction fuel as [|fuel IH]; intros e [|it items] r Hrun fuel' Hle.
  - destruct fuel'; exact Hrun.
  - rewrite nestRun_cons in *.
    destruct (retries (attempt e (it :: items))); [discriminate | assumption].
  - destruct fuel'; exact Hrun.
  - rewrite nestRun_cons in *.
    destruct (retries (attempt e (it :: items))); [|assumption].
    destruct fuel' as [|fuel']; [lia|]. apply IH with (fuel' := fuel') in Hrun;
      [assumption | lia].
Qed.

End EngineFacts.



Lemma nestRun_stuck (Id Payload : Type) (e : NestingEngine)
      (items : list (Item Id Payload)) :
  retries (attempt e items) = true ->
  expandedEngine e (fst (attempt e items)) = e ->
  forall fuel, nestRun fuel e items = None.
Proof.
  intros Hretry Hsame fuel. destruct items as [|it items].
  - discriminate.
  - induction fuel as [|fuel IH]; rewrite nestRun_cons, Hretry; auto.
    rewrite Hsame. assumption.
Qed.


(** ** Concrete runs *)

(** A single item lands in the corner of the region. *)
Example nest_single_item :
  nest 0 (newEngine zeroSpacingOptions) [ mkItem 1%nat 100 50 tt ] =
  Some [ mkPlacement 1%nat 0 0 100 50 tt false ].
Proof. reflexivity. Qed.

(** No items: the empty array, whatever the engine. *)
Example nest_no_items (e : NestingEngine) :
  nest 0 e (@nil (Item nat unit)) = Some [].
Proof. reflexivity. Qed.

(** A single item larger than the region: nothing is placed and there is
    no retry. *)
Example nest_oversized_item :
  nest 0 (newEngine noOptions) [ mkItem 1%nat 2000 2000 tt ] = Some [].
Proof. reflexivity. Qed.

(** The sort is by descending area and keeps the input order of ties. *)
Example sortItems_stable :
  map (@id nat unit)
      (sortItems [ mkItem 1%nat 10 10 tt; mkItem 2%nat 20 20 tt;
                   mkItem 3%nat 5 20 tt; mkItem 4%nat 40 10 tt ]) =
  [ 2%nat; 4%nat; 1%nat; 3%nat ].
Proof. reflexivity. Qed.

(** ** Properties of [nest] and [insert] *)



(** C5 (no mutation on failure). If no free rectangle admits the padded
    footprint, [insert] returns nothing and the packer is unchanged. *)
Theorem insert_none_unchanged (Id : Type) (p : GuillouinePacker)
        (wd ht : Z) (i : Id) :
  (forall r, In r (freeRectangles p) ->
             ~ (wd + pspacing p <= rwidth r /\ ht + pspacing p <= rheight r)) ->
  insert p wd ht i = (None, p).
Proof.
  intros Hnone.
  destruct (insert_cases p wd ht i) as [[_ H]|(k & r & Hsel & _)]; auto.
  destruct Hsel as (Hk & Hf & _). apply nth_error_In in Hk.
  apply fits_le in Hf. elim (Hnone r Hk Hf).
Qed.

Lemma insert_none_unchanged_witness :
  insert usedPacker 2000 5 3%nat = (None, usedPacker).
Proof.
  apply insert_none_unchanged.
  intros r Hr. vm_compute in Hr.
  destruct Hr as [<-|[<-|[]]]; simpl; lia.
Defined.

(** C6 (Best Short Side Fit). When some free rectangle admits the padded
    footprint, [insert] returns a placement whose (x, y) is the corner of
    a free rectangle that admits the footprint, minimises
    [min(rect.width - w, rect.height - h)] among those that do, and is the
    first one with that score in the order of the array. *)
Theorem insert_best_short_side_fit (Id : Type) (p : GuillouinePacker)
        (wd ht : Z) (i : Id) :
  (exists r, In r (freeRectangles p) /\
             wd + pspacing p <= rwidth r /\ ht + pspacing p <= rheight r) ->
  exists k r,
    selected (wd + pspacing p) (ht + pspacing p) (freeRectangles p) k r /\
    fst (insert p wd ht i) = Some (mkSlot i (rx r) (ry r) wd ht).
Proof.
  intros (r0 & Hin & Hw & Hh).
  destruct (insert_cases p wd ht i) as [[Hnone _]|(k & r & Hsel & ->)].
  - rewrite Forall_forall in Hnone. specialize (Hnone r0 Hin).
    unfold fits in Hnone. rewrite andb_false_iff, !Z.leb_gt in Hnone. lia.
  - exists k, r. auto.
Qed.

Lemma insert_best_short_side_fit_witness :
  exists k r,
    selected (100 + 10) (50 + 10) (freeRectangles usedPacker) k r /\
    fst (insert usedPacker 100 50 2%nat) =
      Some (mkSlot 2%nat (rx r) (ry r) 100 50).
Proof.
  apply (@insert_best_short_side_fit nat usedPacker 100 50 2%nat).
  exists (mkRect 110 0 890 1000). split.
  - vm_compute. auto.
  - simpl. lia.
Defined.

(** C7 (advertised dimensions). Every placement of the returned array
    comes from an item of the input and carries that item's own width and
    height, as given or swapped when rotated; the spacing is not added. *)
Theorem nest_reports_unpadded (Id Payload : Type) (e : NestingEngine)
        (items : list (Item Id Payload)) (fuel : nat)
        (ps : list (Placement Id Payload)) :
  nest fuel e items = Some ps ->
  Forall (fun pl =>
            exists it, In it items /\ pid pl = id it /\
              ((rotated pl = false /\
                pwidth pl = width it /\ pheight pl = height it) \/
               (rotated pl = true /\
                pwidth pl = height it /\ pheight pl = width it))) ps.
Proof.
  unfold nest. intros Hnest.
  destruct (nestRun fuel e items) as [[e' ps']|] eqn:Hrun; [|discriminate].
  injection Hnest as ->. apply nestRun_final in Hrun.
  destruct Hrun as (-> & _ & _).
  pose proof (attempt_from e' items) as Hfrom. revert Hfrom.
  apply Forall_impl. intros pl (it & Hin & Hid & _ & Hdim).
  exists it. repeat split; auto. tauto.
Qed.

Lemma nest_reports_unpadded_witness :
  Forall (fun pl : Placement nat unit =>
            exists it, In it narrowItems /\ pid pl = id it /\
              ((rotated pl = false /\
                pwidth pl = width it /\ pheight pl = height it) \/
               (rotated pl = true /\
                pwidth pl = height it /\ pheight pl = width it)))
         narrowResult.
Proof.
  apply (@nest_reports_unpadded nat unit (newEngine narrowOptions)
           narrowItems 0 narrowResult).
  reflexivity.
Defined.

(** C8 (rotation legality). A placement of the returned array has
    [rotated = true] only if the engine allows rotation and the placement
    comes from an item whose width differs from its height, and then its
    width and height are that item's height and width. For a square item
    the loop makes the single unrotated [insert] call. *)
Theorem nest_rotation_legal (Id Payload : Type) (e : NestingEngine)
        (items : list (Item Id Payload)) (fuel : nat)
        (ps : list (Placement Id Payload)) :
  (nest fuel e items = Some ps ->
   forall pl, In pl ps -> rotated pl = true ->
     allowRotation e = true /\
     exists it, In it items /\ pid pl = id it /\
                width it <> height it /\
                pwidth pl = height it /\ pheight pl = width it) /\
  (forall p (it : Item Id Payload),
     width it = height it ->
     tryPlace e p it =
     match insert p (width it) (height it) (id it) with
     | (Some s, p1) => (Some (s, false), p1)
     | (None, p1) => (None, p1)
     end).
Proof.
  split.
  - unfold nest. intros Hnest pl Hpl Hrot.
    destruct (nestRun fuel e items) as [[e' ps']|] eqn:Hrun; [|discriminate].
    injection Hnest as ->. apply nestRun_final in Hrun.
    destruct Hrun as (-> & He & _).
    pose proof (attempt_from e' items) as Hfrom.
    rewrite Forall_forall in Hfrom.
    destruct (Hfrom pl Hpl) as (it & Hin & Hid & _ & [[Hf _]|Hr]).
    + congruence.
    + destruct Hr as (_ & Hallow & Hne & Hw & Hh).
      split; [congruence|]. exists it. auto.
  - intros p it Hsq. unfold tryPlace.
    destruct (insert p (width it) (height it) (id it)) as [[s|] p1]; auto.
    rewrite Hsq, Z.eqb_refl, andb_false_r. reflexivity.
Qed.

Lemma nest_rotation_legal_witness :
  allowRotation (newEngine narrowOptions) = true /\
  exists it, In it narrowItems /\ 1%nat = id it /\
             width it <> height it /\
             50 = height it /\ 20 = width it.
Proof.
  apply (proj1 (@nest_rotation_legal nat unit (newEngine narrowOptions)
                  narrowItems 0 narrowResult) eq_refl
               (mkPlacement 1%nat 0 0 50 20 tt true)).
  - left. reflexivity.
  - reflexivity.
Defined.

(** A result of the recursion does not depend on the bound on its
    depth. *)
Lemma nest_deterministic (Id Payload : Type) (e : NestingEngine)
        (items : list (Item Id Payload)) (fuel1 fuel2 : nat)
        (ps1 ps2 : list (Placement Id Payload)) :
  nest fuel1 e items = Some ps1 ->
  nest fuel2 e items = Some ps2 ->
  ps1 = ps2.
Proof.
  unfold nest. intros H1 H2.
  destruct (nestRun fuel1 e items) as [r1|] eqn:E1; [|discriminate].
  destruct (nestRun fuel2 e items) as [r2|] eqn:E2; [|discriminate].
  apply nestRun_more with (fuel' := Nat.max fuel1 fuel2) in E1; [|lia].
  apply nestRun_more with (fuel' := Nat.max fuel1 fuel2) in E2; [|lia].
  simpl in H1, H2. congruence.
Qed.

(** C2 (growth of the retry). For the two 600 x 600 items in the default
    1000 x 1000 region with the default spacing, the pass places one item
    and leaves one out, the engine built for the retry has the dimensions
    of the current one, and [nest] returns for no bound on the depth of
    the recursion. *)
Theorem nest_retry_without_growth :
  retries (attempt (newEngine noOptions) twoBigItems) = true /\
  expandedEngine (newEngine noOptions)
                 (fst (attempt (newEngine noOptions) twoBigItems))
  = newEngine noOptions /\
  forall fuel, nest fuel (newEngine noOptions) twoBigItems = None.
Proof.
  assert (H1 : retries (attempt (newEngine noOptions) twoBigItems) = true)
    by (vm_compute; reflexivity).
  assert (H2 : expandedEngine (newEngine noOptions)
                 (fst (attempt (newEngine noOptions) twoBigItems))
               = newEngine noOptions)
    by (vm_compute; reflexivity).
  repeat split; auto.
  intros fuel. unfold nest. rewrite (@nestRun_stuck _ _ _ _ H1 H2). reflexivity.
Qed.

(** C3 (spacing option). An engine constructed with spacing 0 has spacing
    10, and packs two 100 x 50 items 60 apart; an engine constructed with
    no spacing option has spacing 10, and one constructed with a spacing
    other than 0 has that spacing. *)
Theorem zero_spacing_replaced :
  spacing (newEngine zeroSpacingOptions) = 10 /\
  nest 0 (newEngine zeroSpacingOptions) twoSmallItems =
    Some [ mkPlacement 1%nat 0 0 100 50 tt false;
           mkPlacement 2%nat 0 60 100 50 tt false ] /\
  spacing (newEngine noOptions) = 10 /\
  (forall s o, s <> 0 ->
     spacing (newEngine {| opt_spacing := Some s;
                           opt_allowRotation := opt_allowRotation o;
                           opt_targetWidth := opt_targetWidth o;
                           opt_targetHeight := opt_targetHeight o |}) = s).
Proof.
  repeat split; try reflexivity.
  intros s o Hs. unfold newEngine, num_or; simpl.
  destruct (Z.eqb_spec s 0); congruence.
Qed.

(** ** The sort of [nest] *)

Section SortFacts.

Variables Id Payload : Type.

Lemma insertSorted_perm (a : Item Id Payload) l :
  Permutation (insertSorted a l) (a :: l).
Proof.
  induction l as [|b l IH]; simpl; auto.
  destruct (0 <? compareArea a b); auto.
  rewrite IH. apply perm_swap.
Qed.

Lemma sortItems_perm (items : list (Item Id Payload)) :
  Permutation (sortItems items) items.
Proof.
  induction items as [|a items IH]; simpl; auto.
  rewrite insertSorted_perm. auto.
Qed.

Lemma insertSorted_sorted (a : Item Id Payload) l :
  StronglySorted (fun x y => itemArea y <= itemArea x) l ->
  StronglySorted (fun x y => itemArea y <= itemArea x) (insertSorted a l).
Proof.
  induction 1 as [|b l Hl IH Hb]; simpl.
  - repeat constructor.
  - unfold compareArea. fold (itemArea a) (itemArea b).
    destruct (Z.ltb_spec 0 (itemArea b - itemArea a)) as [Hlt|Hge].
    + constructor; auto. rewrite Forall_forall in *.
      intros x Hx. apply In_insertSorted in Hx. destruct Hx as [->|Hx].
      * lia.
      * auto.
    + constructor.
      * constructor; auto.
      * constructor; [lia|]. revert Hb. apply Forall_impl. intros x; lia.
Qed.

Lemma insertSorted_filter (a : Item Id Payload) l v :
  filter (fun it => width it * height it =? v) (insertSorted a l) =
  filter (fun it => width it * height it =? v) (a :: l).
Proof.
  induction l as [|b l IH]; auto.
  simpl insertSorted. unfold compareArea.
  destruct (Z.ltb_spec 0 (width b * height b - width a * height a))
    as [Hlt|Hge]; auto.
  simpl filter in *. rewrite IH.
  destruct (Z.eqb_spec (width a * height a) v),
           (Z.eqb_spec (width b * height b) v); auto; lia.
Qed.

End SortFacts.

(** X1 (sort order). The array [nest] iterates over is a rearrangement of
    the input items in which no item has a larger [width * height] than
    one before it. *)
Theorem sortItems_descending_permutation (Id Payload : Type)
        (items : list (Item Id Payload)) :
  Permutation (sortItems items) items /\
  StronglySorted (fun a b => width b * height b <= width a * height a)
                 (sortItems items).
Proof.
  split; [apply sortItems_perm|].
  induction items as [|a items IH]; simpl.
  - constructor.
  - apply (@insertSorted_sorted Id Payload). exact IH.
Qed.

(** X2 (stable sort). Items of equal area keep their input order: for
    every area value, the items with that area appear in the sorted array
    in the order they have in the input. *)
Theorem sortItems_stable_ties (Id Payload : Type)
        (items : list (Item Id Payload)) (v : Z) :
  filter (fun it => width it * height it =? v) (sortItems items) =
  filter (fun it => width it * height it =? v) items.
Proof.
  induction items as [|a items IH]; auto.
  simpl sortItems.
  rewrite (@insertSorted_filter Id Payload a (sortItems items) v).
  simpl. rewrite IH. reflexivity.
Qed.

(** ** One pass, item by item *)

Section PassFacts.

Variables Id Payload : Type.

Lemma insert_none_iff (p : GuillouinePacker) (wd ht : Z) (i : Id) :
  fst (insert p wd ht i) = None <->
  Forall (fun r => fits (wd + pspacing p) (ht + pspacing p) r = false)
         (freeRectangles p).
Proof.
  destruct (insert_cases p wd ht i) as [[Hnone ->]|(k & r & Hsel & ->)];
    simpl.
  - tauto.
  - split; [discriminate|]. intros Hall.
    destruct Hsel as (Hk & Hf & _). apply nth_error_In in Hk.
    rewrite Forall_forall in Hall. rewrite (Hall r Hk) in Hf. discriminate.
Qed.

Lemma insert_fail_same (p : GuillouinePacker) (wd ht : Z) (i : Id) :
  fst (insert p wd ht i) = None -> snd (insert p wd ht i) = p.
Proof.
  destruct (insert_cases p wd ht i) as [[_ ->]|(k & r & _ & ->)]; simpl;
    [reflexivity | discriminate].
Qed.

(** An item is left out exactly when no free rectangle admits it in an
    orientation the loop tries. *)
Lemma tryPlace_none_iff (e : NestingEngine) (p : GuillouinePacker)
      (it : Item Id Payload) :
  fst (tryPlace e p it) = None <->
  Forall (fun r => fits (width it + pspacing p) (height it + pspacing p) r
                   = false) (freeRectangles p) /\
  (allowRotation e = true -> width it <> height it ->
   Forall (fun r => fits (height it + pspacing p) (width it + pspacing p) r
                    = false) (freeRectangles p)).
Proof.
  unfold tryPlace.
  pose proof (insert_none_iff p (width it) (height it) (id it)) as H1.
  pose proof (insert_fail_same p (width it) (height it) (id it)) as S1.
  destruct (insert p (width it) (height it) (id it)) as [[s|] p1];
    simpl in H1, S1.
  - simpl. split; [discriminate|]. intros [Hn _]. apply H1 in Hn.
    discriminate.
  - rewrite (S1 eq_refl).
    pose proof (insert_none_iff p (height it) (width it) (id it)) as H2.
    destruct (allowRotation e); simpl.
    + destruct (Z.eqb_spec (width it) (height it)) as [Heq|Hne]; simpl.
      * split; [|reflexivity]. intros _. split; [tauto|]. congruence.
      * destruct (insert p (height it) (width it) (id it)) as [[s|] p2];
          simpl in *.
        -- split; [discriminate|]. intros [_ Hn].
           specialize (Hn eq_refl Hne). apply H2 in Hn. discriminate.
        -- split; [|reflexivity]. intros _. split; [tauto|].
           intros _ _. tauto.
    + split; [|reflexivity]. intros _. split; [tauto|]. discriminate.
Qed.

Lemma tryPlace_fail_same (e : NestingEngine) (p : GuillouinePacker)
      (it : Item Id Payload) :
  fst (tryPlace e p it) = None -> snd (tryPlace e p it) = p.
Proof.
  unfold tryPlace.
  pose proof (insert_fail_same p (width it) (height it) (id it)) as S1.
  destruct (insert p (width it) (height it) (id it)) as [[s|] p1];
    simpl in *; [discriminate|].
  rewrite (S1 eq_refl).
  destruct (allowRotation e && negb (width it =? height it)); auto.
  pose proof (insert_fail_same p (height it) (width it) (id it)) as S2.
  destruct (insert p (height it) (width it) (id it)) as [[s|] p2];
    simpl in *; [discriminate | auto].
Qed.

Lemma placeAll_perm (e : NestingEngine) sorted :
  forall p (pl : list (Placement Id Payload)) (un : list (Item Id Payload)),
  Permutation
    (map (@pid Id Payload) (fst (fst (placeAll e p sorted pl un))) ++
     map (@id Id Payload) (snd (fst (placeAll e p sorted pl un))))
    (map (@pid Id Payload) pl ++ map (@id Id Payload) un ++
     map (@id Id Payload) sorted).
Proof.
  induction sorted as [|it rest IH]; intros p pl un; simpl.
  - rewrite app_nil_r. reflexivity.
  - pose proof (tryPlace_from e p it) as Hf.
    destruct (tryPlace e p it) as [[[s rot]|] p']; simpl in Hf.
    + rewrite IH. destruct Hf as (Hid & _). simpl in Hid.
      rewrite map_app. simpl. rewrite Hid, <- app_assoc. simpl.
      apply Permutation_app_head. apply Permutation_middle.
    + rewrite IH. rewrite map_app, <- app_assoc. reflexivity.
Qed.

Lemma placeAll_all (e : NestingEngine) sorted :
  forall p (pl : list (Placement Id Payload)) (un : list (Item Id Payload)),
  snd (fst (placeAll e p sorted pl un)) = [] ->
  un = [] /\
  exists new, fst (fst (placeAll e p sorted pl un)) = pl ++ new /\
              Forall2 (placedFrom e) sorted new.
Proof.
  induction sorted as [|it rest IH]; intros p pl un; simpl.
  - intros ->. split; auto. exists []. rewrite app_nil_r. auto.
  - pose proof (tryPlace_from e p it) as Hf.
    destruct (tryPlace e p it) as [[[s rot]|] p']; simpl in Hf; intros Hun.
    + destruct (IH _ _ _ Hun) as (-> & new & -> & Hall). split; auto.
      exists (mkResult s rot it :: new). rewrite <- app_assoc. auto.
    + destruct (IH _ _ _ Hun) as (Habs & _).
      destruct un; discriminate.
Qed.

Lemma placeAll_none (e : NestingEngine) (p : GuillouinePacker) sorted :
  forall (pl : list (Placement Id Payload)) (un : list (Item Id Payload)),
  Forall (fun it => fst (tryPlace e p it) = None) sorted ->
  placeAll e p sorted pl un = (pl, un ++ sorted, p).
Proof.
  induction sorted as [|it rest IH]; intros pl un Hall; simpl.
  - rewrite app_nil_r. reflexivity.
  - inversion Hall as [|? ? Hit Hrest]; subst.
    pose proof (tryPlace_fail_same e p it Hit) as Hsame.
    destruct (tryPlace e p it) as [[[s rot]|] p']; simpl in *;
      [discriminate|]. subst p'.
    rewrite IH by assumption. rewrite <- app_assoc. reflexivity.
Qed.

End PassFacts.

Lemma nestRun_settled (Id Payload : Type) fuel :
  forall (e e' : NestingEngine) (items : list (Item Id Payload)) ps,
  nestRun fuel e items = Some (e', ps) ->
  retries (attempt e' items) = false.
Proof.
  induction fuel as [|fuel IH]; intros e e' [|it items] ps;
    try (intros _; reflexivity); rewrite nestRun_cons;
    destruct (retries (attempt e (it :: items))) eqn:Hr;
    try discriminate; try (intros [= <- <-]; assumption).
  apply IH.
Qed.

Lemma fits_false w h r :
  fits w h r = false <-> ~ (w <= rwidth r /\ h <= rheight r).
Proof.
  unfold fits. rewrite andb_false_iff, !Z.leb_gt. lia.
Qed.

(** X3 (conservation in one pass). One pass places or leaves out every
    item exactly once: the ids of the placements followed by the ids of
    the unplaced items are a rearrangement of the ids of the input. *)
Theorem attempt_conserves_items (Id Payload : Type) (e : NestingEngine)
        (items : list (Item Id Payload)) :
  Permutation (map (@id Id Payload) items)
              (map (@pid Id Payload) (fst (attempt e items)) ++
               map (@id Id Payload) (snd (attempt e items))).
Proof.
  unfold attempt. symmetry.
  rewrite (@placeAll_perm Id Payload e (sortItems items)
             (newPacker (targetWidth e) (targetHeight e) (Some (spacing e)))
             [] []).
  simpl. apply Permutation_map. apply sortItems_perm.
Qed.

(** X4 (all or nothing). The array [nest] returns is either empty or has
    one placement for every input item, in descending-area order: the
    k-th placement carries the id, payload and (possibly swapped)
    dimensions of the k-th item of the sorted input. *)
Theorem nest_all_or_nothing (Id Payload : Type) (e : NestingEngine)
        (items : list (Item Id Payload)) (fuel : nat)
        (ps : list (Placement Id Payload)) :
  nest fuel e items = Some ps ->
  ps = [] \/ Forall2 (placedFrom e) (sortItems items) ps.
Proof.
  unfold nest. intros Hnest.
  destruct (nestRun fuel e items) as [[e' ps']|] eqn:Hrun; [|discriminate].
  injection Hnest as ->.
  pose proof (nestRun_settled _ _ _ Hrun) as Hr.
  apply nestRun_final in Hrun. destruct Hrun as (-> & Hrot & _).
  unfold retries in Hr. apply andb_false_iff in Hr.
  destruct Hr as [Hun|Hpl].
  - right. unfold attempt in *.
    destruct (@placeAll_all Id Payload e' (sortItems items)
                (newPacker (targetWidth e') (targetHeight e')
                           (Some (spacing e'))) [] [])
      as (_ & new & Hnew & Hall).
    { destruct (snd (fst (placeAll e' _ (sortItems items) [] [])));
        [reflexivity | discriminate]. }
    rewrite Hnew. simpl. revert Hall. apply Forall2_impl.
    intros it pl. unfold placedFrom. rewrite Hrot. auto.
  - left. destruct (fst (attempt e' items)); [reflexivity | discriminate].
Qed.

Lemma nest_all_or_nothing_witness :
  narrowResult = [] \/
  Forall2 (placedFrom (newEngine narrowOptions)) (sortItems narrowItems)
          narrowResult.
Proof.
  apply (@nest_all_or_nothing nat unit (newEngine narrowOptions) narrowItems
           0 narrowResult).
  reflexivity.
Defined.

(** X5 (oversized items). If no item fits the empty region with its
    spacing, in the given orientation or, when rotation is allowed, the
    rotated one, [nest] returns the empty array without any retry. *)
Theorem nest_nothing_fits (Id Payload : Type) (e : NestingEngine)
        (items : list (Item Id Payload)) :
  Forall (fun it =>
            ~ (width it + spacing e <= targetWidth e /\
               height it + spacing e <= targetHeight e) /\
            (allowRotation e = true ->
             ~ (height it + spacing e <= targetWidth e /\
                width it + spacing e <= targetHeight e))) items ->
  nest 0 e items = Some [].
Proof.
  intros Hbig. destruct items as [|it0 items]; [reflexivity|].
  unfold nest. rewrite nestRun_cons.
  assert (Hpass : attempt e (it0 :: items) = ([], sortItems (it0 :: items))).
  { unfold attempt. rewrite placeAll_none; [reflexivity|].
    rewrite Forall_forall in *. intros it Hit. apply In_sortItems in Hit.
    destruct (Hbig it Hit) as [H1 H2].
    apply tryPlace_none_iff. simpl. split.
    - constructor; [|constructor]. apply fits_false. exact H1.
    - intros Hrot _. constructor; [|constructor]. apply fits_false. auto. }
  rewrite Hpass. unfold retries. simpl fst. simpl snd.
  rewrite andb_false_r. reflexivity.
Qed.

Lemma nest_nothing_fits_witness :
  nest 0 (newEngine noOptions)
       [ mkItem 1%nat 2000 2000 tt; mkItem 2%nat 995 20 tt ] = Some [].
Proof.
  apply nest_nothing_fits.
  repeat constructor; simpl; try lia; discriminate.
Defined.

Lemma insert_fresh (Id : Type) (W H s wd ht : Z) (i : Id) :
  insert (newPacker W H (Some s)) wd ht i =
  if (wd + s <=? W) && (ht + s <=? H)
  then (Some (mkSlot i 0 0 wd ht),
        {| binWidth := W; binHeight := H; pspacing := s;
           freeRectangles :=
             splitFreeNode [mkRect 0 0 W H] (mkRect 0 0 W H)
                           (wd + s) (ht + s) 0 |})
  else (None, newPacker W H (Some s)).
Proof.
  unfold insert. simpl. unfold fits. simpl.
  destruct ((wd + s <=? W) && (ht + s <=? H)); reflexivity.
Qed.

(** X6 (a single item). For a one-item list [nest] never retries: the
    item is placed at the origin, unrotated, if its padded size fits the
    region; otherwise rotated, if rotation is allowed, it is not square
    and the swapped padded size fits; otherwise the result is empty. *)
Theorem nest_single (Id Payload : Type) (e : NestingEngine)
        (it : Item Id Payload) (fuel : nat) :
  nest fuel e [it] =
  Some (if (width it + spacing e <=? targetWidth e) &&
           (height it + spacing e <=? targetHeight e)
        then [ mkPlacement (id it) 0 0 (width it) (height it)
                           (originalItem it) false ]
        else if allowRotation e && negb (width it =? height it) &&
                ((height it + spacing e <=? targetWidth e) &&
                 (width it + spacing e <=? targetHeight e))
             then [ mkPlacement (id it) 0 0 (height it) (width it)
                                (originalItem it) true ]
             else []).
Proof.
  unfold nest. rewrite nestRun_cons.
  assert (Hnr : forall pass : list (Placement Id Payload) *
                              list (Item Id Payload),
             (length (fst pass) + length (snd pass) = 1)%nat ->
             retries pass = false).
  { intros [[|a [|b pl]] [|c [|d un]]]; simpl; intros; try lia; reflexivity. }
  assert (Hpass : attempt e [it] =
    if (width it + spacing e <=? targetWidth e) &&
       (height it + spacing e <=? targetHeight e)
    then ([ mkPlacement (id it) 0 0 (width it) (height it)
                        (originalItem it) false ], [])
    else if allowRotation e && negb (width it =? height it) &&
            ((height it + spacing e <=? targetWidth e) &&
             (width it + spacing e <=? targetHeight e))
         then ([ mkPlacement (id it) 0 0 (height it) (width it)
                             (originalItem it) true ], [])
         else ([], [it])).
  { unfold attempt. simpl. unfold tryPlace. rewrite insert_fresh.
    destruct ((width it + spacing e <=? targetWidth e) &&
              (height it + spacing e <=? targetHeight e)); simpl;
      [reflexivity|].
    destruct (allowRotation e); simpl; [|reflexivity].
    destruct (width it =? height it); simpl; [reflexivity|].
    rewrite insert_fresh.
    destruct ((height it + spacing e <=? targetWidth e) &&
              (width it + spacing e <=? targetHeight e)); reflexivity. }
  rewrite Hpass.
  destruct ((width it + spacing e <=? targetWidth e) &&
            (height it + spacing e <=? targetHeight e));
    [rewrite Hnr by reflexivity; reflexivity|].
  destruct (allowRotation e && negb (width it =? height it) &&
            ((height it + spacing e <=? targetWidth e) &&
             (width it + spacing e <=? targetHeight e)));
    rewrite Hnr by reflexivity; reflexivity.
Qed.

(** X7 (an item is left out only when it cannot fit). In the loop of
    [nest] an item gets no placement exactly when no free rectangle admits
    its padded size and, if rotation is allowed and the item is not
    square, none admits the swapped padded size either. *)
Theorem unplaced_iff_no_fit (Id Payload : Type) (e : NestingEngine)
        (p : GuillouinePacker) (it : Item Id Payload) :
  fst (tryPlace e p it) = None <->
  (forall r, In r (freeRectangles p) ->
             ~ (width it + pspacing p <= rwidth r /\
                height it + pspacing p <= rheight r)) /\
  (allowRotation e = true -> width it <> height it ->
   forall r, In r (freeRectangles p) ->
             ~ (height it + pspacing p <= rwidth r /\
                width it + pspacing p <= rheight r)).
Proof.
  rewrite tryPlace_none_iff, !Forall_forall.
  split; intros [H1 H2]; split.
  - intros r Hr. apply fits_false. auto.
  - intros Hrot Hne r Hr. apply fits_false. auto.
  - intros r Hr. apply fits_false. auto.
  - intros Hrot Hne r Hr. apply fits_false. auto.
Qed.

(** ** The merge step *)

Lemma In_filteri_nth (A : Type) (f : A -> nat -> bool) (l : list A) a :
  forall i, In a (filteri f l i) ->
  exists k, nth_error l k = Some a /\ f a (i + k)%nat = true.
Proof.
  induction l as [|b l IH]; intros i; simpl; [tauto|].
  destruct (f b i) eqn:Hb; simpl.
  - intros [->|Hin].
    + exists 0%nat. rewrite Nat.add_0_r. auto.
    + destruct (IH _ Hin) as (k & Hk & Hf). exists (S k).
      replace (i + S k)%nat with (S i + k)%nat by lia. auto.
  - intros Hin. destruct (IH _ Hin) as (k & Hk & Hf). exists (S k).
    replace (i + S k)%nat with (S i + k)%nat by lia. auto.
Qed.

Lemma containedInOther_true rect i rs :
  forall j m other,
  nth_error rs m = Some other -> (j + m)%nat <> i ->
  isContained rect other = true ->
  containedInOther rect i rs j = true.
Proof.
  induction rs as [|o rs IH]; intros j [|m] other Hm Hne Hc; simpl in *;
    try discriminate.
  - injection Hm as ->. destruct (Nat.eqb_spec i j); [lia|].
    rewrite Hc. reflexivity.
  - assert (Hrest : containedInOther rect i rs (S j) = true)
      by (apply (IH (S j) m other); auto; lia).
    destruct (Nat.eqb i j); auto. destruct (isContained rect o); auto.
Qed.

Lemma isContained_refl r : isContained r r = true.
Proof. unfold isContained. rewrite !Z.leb_refl. reflexivity. Qed.

(** X9 (duplicates erase each other). If the same rectangle occurs at two
    positions of the array, [mergeRectangles] keeps no copy of it: each
    copy is contained in the other. *)
Theorem mergeRectangles_drops_duplicates (rs : list FreeRect)
        (i j : nat) (r : FreeRect) :
  i <> j -> nth_error rs i = Some r -> nth_error rs j = Some r ->
  ~ In r (mergeRectangles rs).
Proof.
  intros Hij Hi Hj Hin. unfold mergeRectangles in Hin.
  apply In_filteri_nth in Hin. destruct Hin as (k & Hk & Hkeep).
  simpl in Hkeep. apply negb_true_iff in Hkeep.
  destruct (Nat.eq_dec k i) as [->|Hki].
  - rewrite (@containedInOther_true r i rs 0%nat j r) in Hkeep;
      auto using isContained_refl. discriminate.
  - rewrite (@containedInOther_true r k rs 0%nat i r) in Hkeep;
      auto using isContained_refl. discriminate.
Qed.

Lemma mergeRectangles_drops_duplicates_witness :
  ~ In (mkRect 0 0 5 5)
       (mergeRectangles [ mkRect 0 0 5 5; mkRect 9 9 1 1; mkRect 0 0 5 5 ]).
Proof.
  apply (@mergeRectangles_drops_duplicates _ 0%nat 2%nat);
    [lia | reflexivity | reflexivity].
Defined.

(** ** Size of the free list *)

Lemma length_filteri (A : Type) (f : A -> nat -> bool) (l : list A) i :
  (length (filteri f l i) <= length l)%nat.
Proof.
  revert i; induction l as [|a l IH]; intros i; simpl; auto.
  specialize (IH (S i)). destruct (f a i); simpl; lia.
Qed.

Lemma length_removeAt (A : Type) k (l : list A) (a : A) :
  nth_error l k = Some a -> S (length (removeAt k l)) = length l.
Proof.
  revert k; induction l as [|b l IH]; intros [|k]; simpl; try discriminate.
  - reflexivity.
  - intros Hk. rewrite (IH _ Hk). reflexivity.
Qed.

Lemma insert_length (Id : Type) (p : GuillouinePacker) (wd ht : Z) (i : Id) :
  (length (freeRectangles (snd (insert p wd ht i))) <=
   length (freeRectangles p) + 1)%nat.
Proof.
  destruct (insert_cases p wd ht i) as [[_ ->]|(k & r & Hsel & ->)]; simpl.
  - lia.
  - destruct Hsel as (Hk & _). unfold splitFreeNode, mergeRectangles.
    etransitivity; [apply length_filteri|].
    rewrite splice1_nat, push_parts, length_app.
    pose proof (length_removeAt _ _ Hk).
    unfold pushBottom, pushRight.
    destruct (0 <? rwidth r - (wd + pspacing p)),
             (0 <? rheight r - (ht + pspacing p)); simpl; lia.
Qed.

(** X11 (growth of the free list). Every [insert] call lengthens the
    array of free rectangles by at most one, so after n calls on a new
    packer it holds at most n + 1 rectangles. *)
Theorem free_list_grows_by_one (Id : Type) (W H : Z) (s : option Z)
        (calls : list (Z * Z * Id)) :
  (length (freeRectangles (insertAll (newPacker W H s) calls)) <=
   length calls + 1)%nat.
Proof.
  assert (Hgen : forall p,
            (length (freeRectangles (insertAll p calls)) <=
             length calls + length (freeRectangles p))%nat).
  { induction calls as [|[[wd ht] i] calls IH]; intros p; simpl; [lia|].
    specialize (IH (snd (insert p wd ht i))).
    pose proof (insert_length p wd ht i). lia. }
  apply (Hgen (newPacker W H s)).
Qed.

(** ** Bounds and the retry engine *)

Lemma calculateBounds_acc (Id Payload : Type)
      (pls : list (Placement Id Payload)) :
  forall b : Z * Z,
  let r := fold_left
             (fun b pl => (Z.max (fst b) (px pl + pwidth pl),
                           Z.max (snd b) (py pl + pheight pl))) pls b in
  fst b <= fst r /\ snd b <= snd r /\
  Forall (fun pl => px pl + pwidth pl <= fst r /\
                    py pl + pheight pl <= snd r) pls /\
  (fst r = fst b \/ exists pl, In pl pls /\ fst r = px pl + pwidth pl) /\
  (snd r = snd b \/ exists pl, In pl pls /\ snd r = py pl + pheight pl).
Proof.
  induction pls as [|pl pls IH]; intros b; simpl.
  - repeat split; auto; lia.
  - specialize (IH (Z.max (fst b) (px pl + pwidth pl),
                    Z.max (snd b) (py pl + pheight pl))).
    simpl in IH.
    remember (fold_left _ pls _) as r eqn:Er. clear Er.
    destruct IH as (H1 & H2 & H3 & H4 & H5).
    repeat split; try lia.
    + constructor; [lia | exact H3].
    + destruct H4 as [H4|(q & Hq & H4)].
      * destruct (Z.max_spec (fst b) (px pl + pwidth pl)) as [[_ E]|[_ E]];
          rewrite E in H4;
          [right; exists pl; split; [left; reflexivity | exact H4]
          | left; exact H4].
      * right; exists q; split; [right; exact Hq | exact H4].
    + destruct H5 as [H5|(q & Hq & H5)].
      * destruct (Z.max_spec (snd b) (py pl + pheight pl)) as [[_ E]|[_ E]];
          rewrite E in H5;
          [right; exists pl; split; [left; reflexivity | exact H5]
          | left; exact H5].
      * right; exists q; split; [right; exact Hq | exact H5].
Qed.

(** X12 (bounds). [calculateBounds] returns non-negative [maxX] and
    [maxY] that no placement's right or bottom edge exceeds, and each is
    0 or the right (bottom) edge of one of the placements. *)
Theorem calculateBounds_tight (Id Payload : Type)
        (pls : list (Placement Id Payload)) :
  let b := calculateBounds pls in
  0 <= fst b /\ 0 <= snd b /\
  Forall (fun pl => px pl + pwidth pl <= fst b /\
                    py pl + pheight pl <= snd b) pls /\
  (fst b = 0 \/ exists pl, In pl pls /\ fst b = px pl + pwidth pl) /\
  (snd b = 0 \/ exists pl, In pl pls /\ snd b = py pl + pheight pl).
Proof. exact (calculateBounds_acc pls (0, 0)). Qed.

Lemma expanded_targets (Id Payload : Type) (e : NestingEngine)
      (pls : list (Placement Id Payload)) :
  targetWidth (expandedEngine e pls) =
    Z.max (targetWidth e) (fst (calculateBounds pls) + 100) /\
  targetHeight (expandedEngine e pls) =
    Z.max (targetHeight e) (snd (calculateBounds pls) + 100).
Proof.
  destruct (calculateBounds_acc pls (0, 0)) as (H1 & H2 & _).
  fold (calculateBounds pls) in H1, H2. simpl in H1, H2.
  unfold expandedEngine, newEngine, num_or; simpl.
  split.
  - destruct (Z.eqb_spec (Z.max (targetWidth e)
                                (fst (calculateBounds pls) + 100)) 0); lia.
  - destruct (Z.eqb_spec (Z.max (targetHeight e)
                                (snd (calculateBounds pls) + 100)) 0); lia.
Qed.

(** X13 (the retry region never shrinks). The engine built for a retry
    has a target width and height at least those of the current engine
    and at least 100 beyond the bounds of the current placements; it
    keeps the rotation flag. *)
Theorem expandedEngine_never_shrinks (Id Payload : Type) (e : NestingEngine)
        (pls : list (Placement Id Payload)) :
  targetWidth e <= targetWidth (expandedEngine e pls) /\
  targetHeight e <= targetHeight (expandedEngine e pls) /\
  fst (calculateBounds pls) + 100 <= targetWidth (expandedEngine e pls) /\
  snd (calculateBounds pls) + 100 <= targetHeight (expandedEngine e pls) /\
  allowRotation (expandedEngine e pls) = allowRotation e.
Proof.
  destruct (expanded_targets e pls) as [-> ->].
  repeat split; try lia. apply expandedEngine_fields.
Qed.

(** X14 (when the retry makes no progress). If a pass leaves items out
    while its placements end at least 100 short of both target edges,
    the engine built for the retry equals the current one, and [nest]
    returns under no bound on the depth of the recursion. *)
Theorem nest_diverges_when_bounds_short (Id Payload : Type)
        (e : NestingEngine) (items : list (Item Id Payload)) :
  spacing e <> 0 ->
  retries (attempt e items) = true ->
  fst (calculateBounds (fst (attempt e items))) + 100 <= targetWidth e ->
  snd (calculateBounds (fst (attempt e items))) + 100 <= targetHeight e ->
  expandedEngine e (fst (attempt e items)) = e /\
  forall fuel, nest fuel e items = None.
Proof.
  intros Hs Hretry Hw Hh.
  assert (Hsame : expandedEngine e (fst (attempt e items)) = e).
  { destruct (expanded_targets e (fst (attempt e items))) as [Etw Eth].
    destruct (expandedEngine_fields e (fst (attempt e items)))
      as [Erot Esp]. specialize (Esp Hs).
    destruct (expandedEngine e (fst (attempt e items))) as [s' r' w' h'].
    destruct e as [s r w h]. simpl in *. subst. f_equal; lia. }
  split; [exact Hsame|].
  intros fuel. unfold nest.
  rewrite (@nestRun_stuck _ _ _ _ Hretry Hsame). reflexivity.
Qed.

Lemma nest_diverges_when_bounds_short_witness :
  expandedEngine (newEngine noOptions)
    (fst (attempt (newEngine noOptions)
                  [ mkItem 1%nat 20 20 tt; mkItem 2%nat 2000 5 tt ]))
  = newEngine noOptions /\
  forall fuel,
    nest fuel (newEngine noOptions)
         [ mkItem 1%nat 20 20 tt; mkItem 2%nat 2000 5 tt ] = None.
Proof.
  apply (@nest_diverges_when_bounds_short nat unit).
  - simpl. lia.
  - reflexivity.
  - vm_compute. intro H. discriminate H.
  - vm_compute. intro H. discriminate H.
Defined.

(** ** Applying a layout *)

Lemma batchesFrom_concat (A : Type) (b : nat) (l : list A) :
  (0 < b)%nat ->
  forall fuel i, (length l <= i + fuel)%nat ->
  concat (batchesFrom b fuel i l) = skipn i l.
Proof.
  intros Hb. induction fuel as [|fuel IH]; intros i Hlen; simpl.
  - symmetry. apply skipn_all2. lia.
  - destruct (Nat.ltb_spec i (length l)) as [Hlt|Hge]; simpl.
    + rewrite IH by lia.
      replace (i + b)%nat with (b + i)%nat by lia.
      rewrite <- skipn_skipn. apply firstn_skipn.
    + symmetry. apply skipn_all2. lia.
Qed.

Lemma batchesFrom_sizes (A : Type) (b : nat) (l : list A) :
  (0 < b)%nat ->
  forall fuel i,
  Forall (fun batch => batch <> [] /\ (length batch <= b)%nat)
         (batchesFrom b fuel i l).
Proof.
  intros Hb. induction fuel as [|fuel IH]; intros i; simpl; auto.
  destruct (Nat.ltb_spec i (length l)) as [Hlt|Hge]; auto.
  constructor; auto. split.
  - intros Hnil. apply (f_equal (@length A)) in Hnil.
    rewrite length_firstn, length_skipn in Hnil. simpl in Hnil. lia.
  - rewrite length_firstn. lia.
Qed.

Section LayoutFacts.

Variables Id H : Type.
Variable hasName : H -> bool.

Lemma processBatch_app (l1 l2 : list (Placement Id (option H))) bx by_ :
  processBatch hasName (l1 ++ l2) bx by_ =
  processBatch hasName l1 bx by_ ++ processBatch hasName l2 bx by_.
Proof.
  induction l1 as [|pl l1 IH]; simpl; auto.
  destruct (poriginalItem pl) as [item|]; auto.
  rewrite IH. destruct (rotated pl), (hasName item); reflexivity.
Qed.

Lemma processBatch_concat (bs : list (list (Placement Id (option H))))
      bx by_ :
  flat_map (fun batch => processBatch hasName batch bx by_) bs =
  processBatch hasName (concat bs) bx by_.
Proof.
  induction bs as [|b bs IH]; simpl; auto.
  rewrite processBatch_app, IH. reflexivity.
Qed.

Lemma moves_app (c1 c2 : list (Command H)) :
  moves (c1 ++ c2) = moves c1 ++ moves c2.
Proof. apply flat_map_app. Qed.

Lemma moves_processBatch (pls : list (Placement Id (option H))) bx by_ :
  moves (processBatch hasName pls bx by_) =
  flat_map (fun pl => match poriginalItem pl with
                      | Some item => [(item, bx + px pl, by_ - py pl)]
                      | None => []
                      end) pls.
Proof.
  induction pls as [|pl pls IH]; [reflexivity|].
  cbn [processBatch flat_map].
  destruct (poriginalItem pl) as [item|]; [|exact IH].
  rewrite !moves_app, IH.
  destruct (rotated pl), (hasName item); reflexivity.
Qed.

End LayoutFacts.

(** X15 (batching). [applyLayout] throws on an empty array and, for a
    non-empty one, when no document is active; otherwise it reports the
    number of placements, and the batches of 50 it processes leave no
    placement out and change nothing in the order: the commands are
    those of one [processBatch] call on the whole array, after the
    deselection. Every batch is non-empty and holds at most 50
    placements. *)
Theorem applyLayout_batches (Id H : Type) (hasName : H -> bool)
        (doc : option (list (Z * Z * Z * Z)))
        (placements : list (Placement Id (option H)))
        (options : LayoutOptions) :
  applyLayout hasName doc placements options =
  match placements, doc with
  | [], _ => Thrown "No placements to apply"
  | _, None => Thrown "No active document"
  | _, Some artboards =>
      Returned (CDeselect ::
                processBatch hasName placements
                  (fst (layoutBase artboards options))
                  (snd (layoutBase artboards options)),
                (true, length placements))
  end /\
  concat (batchesFrom 50 (length placements) 0 placements) = placements /\
  Forall (fun batch => batch <> [] /\ (length batch <= 50)%nat)
         (batchesFrom 50 (length placements) 0 placements).
Proof.
  assert (Hc : concat (batchesFrom 50 (length placements) 0 placements)
               = placements).
  { rewrite batchesFrom_concat by lia. reflexivity. }
  split; [|split; [exact Hc | apply batchesFrom_sizes; lia]].
  unfold applyLayout. destruct placements as [|pl pls]; [reflexivity|].
  destruct doc as [artboards|]; [|reflexivity].
  rewrite processBatch_concat, Hc. reflexivity.
Qed.

(** X16 (where items are moved). [processBatch] moves every placement
    that has an item exactly once, in order, to
    [(baseX + x, baseY - y)], and moves nothing else. *)
Theorem processBatch_moves (Id H : Type) (hasName : H -> bool)
        (placements : list (Placement Id (option H))) (baseX baseY : Z) :
  moves (processBatch hasName placements baseX baseY) =
  flat_map (fun pl => match poriginalItem pl with
                      | Some item => [(item, baseX + px pl, baseY - py pl)]
                      | None => []
                      end) placements.
Proof. apply moves_processBatch. Qed.

(** ** Validation and the plugin pipeline *)

Section PluginFacts.

Variables Id H : Type.

Lemma validate_fold (images : list (Image Id H)) :
  forall acc,
  fold_left (@validateStep Id H) images acc =
  (fst acc ++
   filter (fun img => (0 <? img_width img) && (0 <? img_height img) &&
                      negb (img_locked img) && negb (img_hidden img))
          images,
   snd acc ++
   map (fun img =>
          (img_name img,
           if (img_width img <=? 0) || (img_height img <=? 0)
           then "Invalid dimensions"%string
           else if img_locked img then "Locked"%string
                else "Hidden"%string))
       (filter (fun img => negb ((0 <? img_width img) &&
                                 (0 <? img_height img) &&
                                 negb (img_locked img) &&
                                 negb (img_hidden img)))
               images)).
Proof.
  induction images as [|img images IH]; intros [v i]; simpl.
  - rewrite !app_nil_r. reflexivity.
  - rewrite IH. unfold validateStep.
    destruct ((0 <? img_width img) && (0 <? img_height img) &&
              negb (img_locked img) && negb (img_hidden img));
      simpl; rewrite <- !app_assoc; reflexivity.
Qed.

Lemma pluginItems_positive (images : list (Image Id H)) :
  Forall (@positiveItem Id H) (pluginItems (fst (validateImages images))).
Proof.
  unfold validateImages. rewrite validate_fold. simpl.
  unfold pluginItems. rewrite Forall_map, Forall_forall.
  intros img Himg. apply filter_In in Himg. destruct Himg as [_ Hok].
  rewrite !andb_true_iff, !Z.ltb_lt in Hok.
  unfold positiveItem; simpl. tauto.
Qed.

Lemma validateImages_fst_In (images : list (Image Id H)) img :
  In img (fst (validateImages images)) ->
  In img images /\ 0 < img_width img /\ 0 < img_height img /\
  img_locked img = false /\ img_hidden img = false.
Proof.
  unfold validateImages. rewrite validate_fold. simpl.
  intros Himg. apply filter_In in Himg. destruct Himg as [Hin Hok].
  rewrite !andb_true_iff, !Z.ltb_lt, !negb_true_iff in Hok. tauto.
Qed.

End PluginFacts.

(** X18 (validation). [validateImages] splits the images, keeping their
    order: [valid] holds exactly the images with positive width and
    height that are neither locked nor hidden, [invalid] one entry for
    each other image, whose reason is "Invalid dimensions" when the width
    or height is not positive, else "Locked" when locked, else "Hidden";
    no image is lost or duplicated. *)
Theorem validateImages_partition (Id H : Type) (images : list (Image Id H)) :
  fst (validateImages images) =
    filter (fun img => (0 <? img_width img) && (0 <? img_height img) &&
                       negb (img_locked img) && negb (img_hidden img))
           images /\
  snd (validateImages images) =
    map (fun img =>
           (img_name img,
            if (img_width img <=? 0) || (img_height img <=? 0)
            then "Invalid dimensions"%string
            else if img_locked img then "Locked"%string
                 else "Hidden"%string))
        (filter (fun img => negb ((0 <? img_width img) &&
                                  (0 <? img_height img) &&
                                  negb (img_locked img) &&
                                  negb (img_hidden img)))
                images) /\
  (length (fst (validateImages images)) +
   length (snd (validateImages images)) = length images)%nat.
Proof.
  unfold validateImages. rewrite validate_fold. simpl.
  repeat split. rewrite length_map.
  induction images as [|img images IH]; simpl; auto.
  destruct ((0 <? img_width img) && (0 <? img_height img) &&
            negb (img_locked img) && negb (img_hidden img)); simpl; lia.
Qed.

(** ** Final bounds *)

Section BoundsFacts.

Variables Id H : Type.

Lemma boundsFold_fin (pls : list (Placement Id (option H))) bx by_ :
  forall a b c d,
  exists a' b' c' d',
    fold_left (boundsStep bx by_) pls
              (mkExtremes (Fin a) (Fin b) (Fin c) (Fin d)) =
    mkExtremes (Fin a') (Fin b') (Fin c') (Fin d') /\
    a' <= a /\ b' <= b /\ c <= c' /\ d <= d' /\
    Forall (fun p => a' <= bx + px p /\
                     bx + px p + pwidth p <= c' /\
                     b' <= by_ - py p - pheight p /\
                     by_ - py p <= d') pls.
Proof.
  induction pls as [|p pls IH]; intros a b c d; simpl.
  - exists a, b, c, d. repeat split; auto; lia.
  - unfold boundsStep at 2. simpl.
    destruct (IH (Z.min a (bx + px p)) (Z.min b (by_ - py p - pheight p))
                 (Z.max c (bx + px p + pwidth p)) (Z.max d (by_ - py p)))
      as (a' & b' & c' & d' & -> & Ha & Hb & Hc & Hd & Hall).
    exists a', b', c', d'. repeat split; try lia.
    constructor; [lia | exact Hall].
Qed.

End BoundsFacts.

(** X20 (final bounds). For a non-empty array [calculateFinalBounds]
    returns finite edges with [width = right - left] and
    [height = top - bottom], and the rectangle of every placement in the
    host frame, from [(baseX + x, baseY - y)] down to
    [baseY - y - height], lies between them; for the empty array the
    edges are infinite and [width] and [height] are [-Infinity]. *)
Theorem calculateFinalBounds_box (Id H : Type)
        (placements : list (Placement Id (option H))) (baseX baseY : Z) :
  match placements with
  | [] =>
      calculateFinalBounds placements baseX baseY =
      mkFinalBounds PosInf NegInf NegInf PosInf NegInf NegInf
  | _ =>
      exists l t r b,
        calculateFinalBounds placements baseX baseY =
        mkFinalBounds (Fin l) (Fin t) (Fin r) (Fin b)
                      (Fin (r - l)) (Fin (t - b)) /\
        Forall (fun p => l <= baseX + px p /\
                         baseX + px p + pwidth p <= r /\
                         b <= baseY - py p - pheight p /\
                         baseY - py p <= t) placements
  end.
Proof.
  destruct placements as [|p pls]; [reflexivity|].
  unfold calculateFinalBounds. simpl fold_left.
  change (boundsStep baseX baseY (mkExtremes PosInf PosInf NegInf NegInf) p)
    with (mkExtremes (Fin (baseX + px p)) (Fin (baseY - py p - pheight p))
                     (Fin (baseX + px p + pwidth p)) (Fin (baseY - py p))).
  destruct (boundsFold_fin pls baseX baseY
              (baseX + px p) (baseY - py p - pheight p)
              (baseX + px p + pwidth p) (baseY - py p))
    as (a' & b' & c' & d' & -> & Ha & Hb & Hc & Hd & Hall).
  exists a', d', c', b'. simpl. split; [reflexivity|].
  constructor; [lia | exact Hall].
Qed.

(** ** Collecting page items *)

Lemma PageItem_nested_ind (P : PageItem -> Prop) :
  (forall tn children, Forall P children -> P (PageItemOf tn children)) ->
  forall it, P it.
Proof.
  intros Hstep. fix IH 1. intros [tn children]. apply Hstep.
  induction children as [|c children IHc]; constructor.
  - apply IH.
  - exact IHc.
Qed.

Lemma traverseItem_nested (it x : PageItem) :
  In x (traverseItem it) <-> nestedIn it x.
Proof.
  split.
  - revert x. induction it as [tn children IH] using PageItem_nested_ind.
    intros x. simpl. intros [<-|Hin]; [constructor|].
    destruct (String.eqb_spec tn "GroupItem") as [->|_]; [|destruct Hin].
    apply in_flat_map in Hin. destruct Hin as (c & Hc & Hx).
    rewrite Forall_forall in IH.
    apply nested_deeper with (c := c); auto.
  - induction 1 as [x|g c x Hg Hc _ IH].
    + destruct x; simpl; auto.
    + destruct g as [tn children]; simpl in *. subst tn. right.
      simpl. apply in_flat_map. exists c. auto.
Qed.

(** X22 (collected items). [getAllItems] returns exactly the page items
    that are page items of an unlocked, visible layer or lie in one of
    them through nested [GroupItem]s: nothing of a locked or hidden layer
    is collected through it, and the contents of an item that is not a
    [GroupItem] are not visited. *)
Theorem getAllItems_reaches (layers : list Layer) (x : PageItem) :
  In x (getAllItems layers) <->
  exists layer top,
    In layer layers /\
    layer_locked layer = false /\ layer_visible layer = true /\
    In top (layer_pageItems layer) /\ nestedIn top x.
Proof.
  unfold getAllItems, traverse. rewrite in_flat_map. split.
  - intros (layer & Hl & Hx).
    destruct (layer_locked layer) eqn:Hlock; simpl in Hx; [destruct Hx|].
    destruct (layer_visible layer) eqn:Hvis; simpl in Hx; [|destruct Hx].
    apply in_flat_map in Hx. destruct Hx as (top & Htop & Hx).
    exists layer, top. rewrite <- traverseItem_nested. auto.
  - intros (layer & top & Hl & Hlock & Hvis & Htop & Hx).
    exists layer. split; auto. rewrite Hlock, Hvis. simpl.
    apply in_flat_map. exists top. rewrite traverseItem_nested. auto.
Qed.

(** ** Independence of the input order *)

Section OrderFacts.

Variables Id Payload : Type.

Lemma sorted_perm_unique (l1 : list (Item Id Payload)) :
  forall l2,
  Permutation l1 l2 ->
  NoDup (map (@itemArea Id Payload) l1) ->
  StronglySorted (fun x y => itemArea y <= itemArea x) l1 ->
  StronglySorted (fun x y => itemArea y <= itemArea x) l2 ->
  l1 = l2.
Proof.
  induction l1 as [|a l1 IH]; intros l2 Hperm Hnd Hs1 Hs2.
  - apply Permutation_nil in Hperm. auto.
  - destruct l2 as [|b l2].
    { apply Permutation_sym, Permutation_nil in Hperm. discriminate. }
    inversion Hs1 as [|? ? Hs1' Ha]; subst.
    inversion Hs2 as [|? ? Hs2' Hb]; subst.
    inversion Hnd as [|? ? Hna Hnd']; subst.
    rewrite Forall_forall in Ha, Hb.
    assert (Hab : a = b).
    { assert (Hain : In a (b :: l2))
        by (eapply Permutation_in; [exact Hperm | left; reflexivity]).
      destruct Hain as [Heq|Hain]; [auto|].
      assert (Hbin : In b (a :: l1))
        by (eapply Permutation_in;
            [apply Permutation_sym; exact Hperm | left; reflexivity]).
      destruct Hbin as [Heq|Hbin]; [auto|].
      specialize (Ha b Hbin). specialize (Hb a Hain).
      exfalso. apply Hna. replace (itemArea a) with (itemArea b) by lia.
      apply in_map. exact Hbin. }
    subst b. f_equal. apply IH; auto.
    eapply Permutation_cons_inv; eauto.
Qed.

Lemma sortItems_sorted (items : list (Item Id Payload)) :
  StronglySorted (fun x y => itemArea y <= itemArea x) (sortItems items).
Proof.
  induction items as [|a items IH]; simpl.
  - constructor.
  - apply insertSorted_sorted. exact IH.
Qed.

Lemma sortItems_nil (items : list (Item Id Payload)) :
  sortItems items = [] -> items = [].
Proof.
  destruct items as [|a items]; auto. simpl. intros Hs.
  pose proof (insertSorted_perm a (sortItems items)) as Hp.
  rewrite Hs in Hp. apply Permutation_nil in Hp. discriminate.
Qed.

Lemma nestRun_by_sorted (fuel : nat) :
  forall (e : NestingEngine) (items1 items2 : list (Item Id Payload)),
  sortItems items1 = sortItems items2 ->
  option_map snd (nestRun fuel e items1) =
  option_map snd (nestRun fuel e items2).
Proof.
  induction fuel as [|fuel IH]; intros e items1 items2 Hsort;
    destruct items1 as [|a1 l1], items2 as [|a2 l2];
    try reflexivity;
    try (apply sortItems_nil in Hsort; discriminate);
    try (symmetry in Hsort; apply sortItems_nil in Hsort; discriminate).
  - rewrite (nestRun_cons 0 e a1 l1), (nestRun_cons 0 e a2 l2).
    unfold attempt. rewrite Hsort.
    destruct (retries _); reflexivity.
  - rewrite (nestRun_cons (S fuel) e a1 l1), (nestRun_cons (S fuel) e a2 l2).
    unfold attempt. rewrite Hsort.
    destruct (retries _); [|reflexivity].
    apply IH. exact Hsort.
Qed.

End OrderFacts.

(** X24 (input order). When the items have pairwise different areas, the
    result of [nest] does not depend on the order in which they are
    given. *)
Theorem nest_order_independent (Id Payload : Type) (e : NestingEngine)
        (items1 items2 : list (Item Id Payload)) (fuel : nat) :
  Permutation items1 items2 ->
  NoDup (map (fun it => width it * height it) items1) ->
  nest fuel e items1 = nest fuel e items2.
Proof.
  intros Hperm Hnd. unfold nest. apply nestRun_by_sorted.
  apply sorted_perm_unique; auto using sortItems_sorted.
  - eapply Permutation_trans; [apply sortItems_perm|].
    eapply Permutation_trans; [exact Hperm|].
    apply Permutation_sym, sortItems_perm.
  - eapply Permutation_NoDup; [|exact Hnd].
    apply Permutation_map. symmetry. apply sortItems_perm.
Qed.

Lemma nest_order_independent_witness :
  nest 0 (newEngine narrowOptions) narrowItems =
  nest 0 (newEngine narrowOptions) (rev narrowItems).
Proof.
  apply nest_order_independent.
  - apply Permutation_rev.
  - simpl. repeat constructor; simpl; intuition discriminate.
Defined.

(** ** The first placement *)

Section GapFacts.

Variables Id Payload : Type.

Lemma placeAll_prefix (e : NestingEngine) sorted :
  forall p (pl : list (Placement Id Payload)) (un : list (Item Id Payload)),
  exists more, fst (fst (placeAll e p sorted pl un)) = pl ++ more.
Proof.
  induction sorted as [|it rest IH]; intros p pl un; simpl.
  - exists []. rewrite app_nil_r. reflexivity.
  - destruct (tryPlace e p it) as [[[s rot]|] p'].
    + destruct (IH p' (pl ++ [mkResult s rot it]) un) as (more & ->).
      exists (mkResult s rot it :: more). rewrite <- app_assoc. reflexivity.
    + apply IH.
Qed.

Lemma tryPlace_corner (e : NestingEngine) (p : GuillouinePacker)
      (it : Item Id Payload) :
  match fst (tryPlace e p it) with
  | None => True
  | Some (s, _) =>
      exists r, In r (freeRectangles p) /\ sx s = rx r /\ sy s = ry r
  end.
Proof.
  unfold tryPlace.
  destruct (insert_cases p (width it) (height it) (id it))
    as [[_ ->]|(k & r & Hsel & ->)].
  - destruct (allowRotation e && negb (width it =? height it)); simpl; auto.
    destruct (insert_cases p (height it) (width it) (id it))
      as [[_ ->]|(k & r & Hsel & ->)]; simpl; auto.
    destruct Hsel as (Hk & _). exists r. eauto using nth_error_In.
  - simpl. destruct Hsel as (Hk & _). exists r. eauto using nth_error_In.
Qed.

Lemma placeAll_first (e : NestingEngine) sorted :
  forall p (un : list (Item Id Payload)) (r0 : FreeRect),
  freeRectangles p = [r0] ->
  match fst (fst (placeAll e p sorted [] un)) with
  | [] => True
  | pl :: _ => px pl = rx r0 /\ py pl = ry r0
  end.
Proof.
  induction sorted as [|it rest IH]; intros p un r0 Hp; simpl; auto.
  pose proof (tryPlace_corner e p it) as Hc.
  pose proof (@tryPlace_fail_same Id Payload e p it) as Hsame.
  destruct (tryPlace e p it) as [[[s rot]|] p']; simpl in Hc, Hsame.
  - destruct (placeAll_prefix e rest p' [mkResult s rot it] un)
      as (more & ->). simpl.
    destruct Hc as (r & Hr & Hx & Hy). rewrite Hp in Hr.
    destruct Hr as [<-|[]]. auto.
  - rewrite (Hsame eq_refl). apply IH. exact Hp.
Qed.

End GapFacts.

(** X27 (anchored at the origin). The first placement of a non-empty
    result of [nest] is at [(0, 0)]. *)
Theorem nest_first_at_origin (Id Payload : Type) (e : NestingEngine)
        (items : list (Item Id Payload)) (fuel : nat)
        (pl : Placement Id Payload) (ps : list (Placement Id Payload)) :
  nest fuel e items = Some (pl :: ps) ->
  px pl = 0 /\ py pl = 0.
Proof.
  unfold nest. intros Hnest.
  destruct (nestRun fuel e items) as [[e' ps']|] eqn:Hrun; [|discriminate].
  injection Hnest as ->.
  apply nestRun_final in Hrun. destruct Hrun as (Hps & _ & _).
  unfold attempt in Hps.
  pose proof (@placeAll_first Id Payload e' (sortItems items)
                (newPacker (targetWidth e') (targetHeight e')
                           (Some (spacing e')))
                [] (mkRect 0 0 (targetWidth e') (targetHeight e')) eq_refl)
    as Hfirst.
  rewrite <- Hps in Hfirst. exact Hfirst.
Qed.

Lemma nest_first_at_origin_witness :
  px (mkPlacement 1%nat 0 0 50 20 tt true) = 0 /\
  py (mkPlacement 1%nat 0 0 50 20 tt true) = 0.
Proof.
  apply (@nest_first_at_origin nat unit (newEngine narrowOptions)
           narrowItems 0 _ [ mkPlacement 2%nat 51 0 10 10 tt false ]).
  reflexivity.
Defined.

(** ** Runs on binary64 numbers: where rounding breaks the geometry *)




(** ** Runs that coincide with the integer run *)





Section ExactFacts.

Variables Id Payload : Type.




End ExactFacts.







(** ** Repeated runs on the same objects *)

Lemma replaceAt_fresh (A : Type) (l : list A) (x y : A) :
  replaceAt (length l) x (l ++ [y]) = l ++ [x].
Proof.
  induction l as [|a l IH]; simpl; [reflexivity | rewrite IH; reflexivity].
Qed.

Section StoreFacts.

Variables Id Payload : Type.

Lemma sorted_filters_unique (l1 : list (Item Id Payload)) :
  forall l2,
  StronglySorted (fun a b => compareArea a b <= 0) l1 ->
  StronglySorted (fun a b => compareArea a b <= 0) l2 ->
  (forall v, filter (fun it => width it * height it =? v) l1 =
             filter (fun it => width it * height it =? v) l2) ->
  l1 = l2.
Proof.
  induction l1 as [|a l1 IH]; intros l2 Hs1 Hs2 Hf.
  - destruct l2 as [|b l2]; [reflexivity|].
    specialize (Hf (width b * height b)). simpl in Hf.
    rewrite Z.eqb_refl in Hf. discriminate.
  - destruct l2 as [|b l2].
    { specialize (Hf (width a * height a)). simpl in Hf.
      rewrite Z.eqb_refl in Hf. discriminate. }
    inversion Hs1 as [|? ? Hs1' Ha]; subst.
    inversion Hs2 as [|? ? Hs2' Hb]; subst.
    rewrite Forall_forall in Ha, Hb. unfold compareArea in Ha, Hb.
    assert (Hkey : width a * height a = width b * height b).
    { destruct (Z.eq_dec (width a * height a) (width b * height b))
        as [|Hne]; [assumption|].
      pose proof (Hf (width a * height a)) as Hfa.
      pose proof (Hf (width b * height b)) as Hfb.
      simpl in Hfa, Hfb. rewrite Z.eqb_refl in Hfa, Hfb.
      destruct (Z.eqb_spec (width b * height b) (width a * height a));
        [congruence|].
      destruct (Z.eqb_spec (width a * height a) (width b * height b));
        [congruence|].
      assert (Hain : In a l2).
      { assert (Hin : In a (filter (fun it => width it * height it =?
                                              width a * height a) l2))
          by (rewrite <- Hfa; left; reflexivity).
        apply filter_In in Hin. tauto. }
      assert (Hbin : In b l1).
      { assert (Hin : In b (filter (fun it => width it * height it =?
                                              width b * height b) l1))
          by (rewrite Hfb; left; reflexivity).
        apply filter_In in Hin. tauto. }
      specialize (Ha b Hbin). specialize (Hb a Hain). lia. }
    assert (Hab : a = b).
    { specialize (Hf (width a * height a)). simpl in Hf.
      rewrite Z.eqb_refl, <- Hkey, Z.eqb_refl in Hf. congruence. }
    subst b. f_equal. apply IH; auto.
    intros v. specialize (Hf v). simpl in Hf.
    destruct (width a * height a =? v); congruence.
Qed.

Lemma sortItems_contract (items : list (Item Id Payload)) :
  sortContract items (sortItems items).
Proof.
  split; [apply sortItems_perm|]. split.
  - pose proof (sortItems_sorted items) as Hs.
    induction Hs as [|a l Hl IH Ha]; constructor; auto.
    revert Ha. apply Forall_impl.
    unfold compareArea, itemArea. intros b. lia.
  - intros v. induction items as [|a items IH]; auto.
    simpl sortItems.
    rewrite (@insertSorted_filter Id Payload a (sortItems items) v).
    simpl. rewrite IH. reflexivity.
Qed.

Lemma sortContract_unique (items sorted : list (Item Id Payload)) :
  sortContract items sorted -> sorted = sortItems items.
Proof.
  intros (_ & Hs & Hf).
  destruct (sortItems_contract items) as (_ & Hs' & Hf').
  apply sorted_filters_unique; auto.
  intros v. rewrite Hf, Hf'. reflexivity.
Qed.

(** A run leaves every object that existed before as it was. *)
Lemma Runs_frame (st st' : Store Id Payload) this loc ps :
  Runs st this loc ps st' ->
  exists es ars, engines st' = engines st ++ es /\
                 arrays st' = arrays st ++ ars.
Proof.
  induction 1 as [st this loc e He Ha
                 |st st' this loc e items sorted pls un p He Ha Hne Hsort
                    Hst Hpass Hret
                 |st st1 st' this loc e items sorted pls res un p He Ha Hne
                    Hsort Hst Hpass Hret Hrun IH].
  - exists [], []. rewrite !app_nil_r. auto.
  - subst st'. simpl. rewrite replaceAt_fresh.
    exists [], [sorted]. rewrite app_nil_r. auto.
  - destruct IH as (es & ars & Hes & Hars). subst st1. simpl in *.
    rewrite replaceAt_fresh in Hars.
    exists (expandedEngine e pls :: es), (sorted :: ars).
    rewrite Hes, Hars, <- !app_assoc. auto.
Qed.

(** What a run returns is what [nest] computes from the values of the
    engine and of the array, whatever else the store holds. *)
Lemma Runs_nest (st st' : Store Id Payload) this loc ps :
  Runs st this loc ps st' ->
  forall e items,
  nth_error (engines st) this = Some e ->
  nth_error (arrays st) loc = Some items ->
  exists fuel, nest fuel e items = Some ps.
Proof.
  induction 1 as [st this loc e He Ha
                 |st st' this loc e items sorted pls un p He Ha Hne Hsort
                    Hst Hpass Hret
                 |st st1 st' this loc e items sorted pls res un p He Ha Hne
                    Hsort Hst Hpass Hret Hrun IH];
    intros e0 items0 He0 Ha0;
    rewrite He in He0; rewrite Ha in Ha0;
    injection He0 as <-; injection Ha0 as <-.
  - exists 0%nat. reflexivity.
  - exists 0%nat. apply sortContract_unique in Hsort. subst sorted.
    destruct items as [|it items]; [congruence|].
    unfold nest. rewrite nestRun_cons. unfold attempt.
    rewrite Hpass. simpl fst. rewrite Hret. reflexivity.
  - apply sortContract_unique in Hsort. subst sorted.
    destruct (IH (expandedEngine e pls) items) as [fuel Hfuel].
    + subst st1. simpl.
      rewrite nth_error_app2, Nat.sub_diag by lia. reflexivity.
    + subst st1. simpl. rewrite replaceAt_fresh.
      rewrite nth_error_app1; [assumption|].
      apply nth_error_Some. congruence.
    + exists (S fuel). destruct items as [|it items]; [congruence|].
      unfold nest in *. rewrite nestRun_cons. unfold attempt.
      rewrite Hpass. simpl fst. rewrite Hret. exact Hfuel.
Qed.

End StoreFacts.

(** C9 (determinism). Two runs of [nest], one after the other, on the same
    engine object and the same item array return identical placement
    arrays (same ids, positions, dimensions and rotation flags, in the
    same order), whichever sort meeting the stable-sort contract the
    runtime uses; the first run leaves the engine and the array as they
    were, although it sorts in place (on a copy) and builds new engines
    for its retries. *)
Theorem nest_runs_repeatable (Id Payload : Type)
        (st st1 st2 : Store Id Payload) (this itemsLoc : nat)
        (ps1 ps2 : list (Placement Id Payload)) :
  Runs st this itemsLoc ps1 st1 ->
  Runs st1 this itemsLoc ps2 st2 ->
  ps1 = ps2 /\
  nth_error (engines st1) this = nth_error (engines st) this /\
  nth_error (arrays st1) itemsLoc = nth_error (arrays st) itemsLoc.
Proof.
  intros H1 H2.
  assert (Hlook : exists e items,
             nth_error (engines st) this = Some e /\
             nth_error (arrays st) itemsLoc = Some items).
  { inversion H1; subst; eauto. }
  destruct Hlook as (e & items & He & Ha).
  destruct (Runs_frame H1) as (es & ars & Hes & Hars).
  assert (He1 : nth_error (engines st1) this = Some e).
  { rewrite Hes, nth_error_app1; [assumption|].
    apply nth_error_Some. congruence. }
  assert (Ha1 : nth_error (arrays st1) itemsLoc = Some items).
  { rewrite Hars, nth_error_app1; [assumption|].
    apply nth_error_Some. congruence. }
  split; [|split; congruence].
  destruct (Runs_nest H1 He Ha) as [f1 Hf1].
  destruct (Runs_nest H2 He1 Ha1) as [f2 Hf2].
  eapply nest_deterministic; eauto.
Qed.

Lemma nest_runs_repeatable_witness :
  let e := newEngine narrowOptions in
  let sorted := sortItems narrowItems in
  let st := mkStore [e] [narrowItems] in
  let st1 := mkStore [e] [narrowItems; sorted] in
  narrowResult = narrowResult /\
  nth_error (engines st1) 0 = nth_error (engines st) 0 /\
  nth_error (arrays st1) 0 = nth_error (arrays st) 0.
Proof.
  intros e sorted st st1.
  apply (@nest_runs_repeatable nat unit st st1
           (mkStore [e] [narrowItems; sorted; sorted]) 0 0
           narrowResult narrowResult).
  - eapply Runs_return with (e := e) (items := narrowItems)
                            (sorted := sorted);
      try reflexivity; [discriminate | apply sortItems_contract].
  - eapply Runs_return with (e := e) (items := narrowItems)
                            (sorted := sorted);
      try reflexivity; [discriminate | apply sortItems_contract].
Defined.

Lemma attempt_placeAll (Id Payload : Type) (e : NestingEngine)
      (items : list (Item Id Payload)) :
  exists pls un p,
    placeAll e (newPacker (targetWidth e) (targetHeight e) (Some (spacing e)))
             (sortItems items) [] [] = (pls, un, p) /\
    attempt e items = (pls, un).
Proof.
  unfold attempt.
  destruct (placeAll e _ (sortItems items) [] []) as [[pls un] p].
  exists pls, un, p. auto.
Qed.

(** Every returning run of the function is a run on the store. *)
Lemma nest_Runs (Id Payload : Type) (fuel : nat) :
  forall (st : Store Id Payload) this loc e items ps,
  nth_error (engines st) this = Some e ->
  nth_error (arrays st) loc = Some items ->
  nest fuel e items = Some ps ->
  exists st', Runs st this loc ps st'.
Proof.
  induction fuel as [|fuel IH]; intros st this loc e items ps He Ha Hn;
    (destruct items as [|it items];
     [ injection Hn as <-; exists st; eapply Runs_empty; eauto |]);
    unfold nest in Hn; rewrite nestRun_cons in Hn;
    destruct (attempt_placeAll e (it :: items))
      as (pls & un & p & Hpass & Hatt);
    rewrite Hatt in Hn; simpl fst in Hn;
    destruct (retries (pls, un)) eqn:Hret;
    try discriminate.
  - injection Hn as <-. eexists.
    eapply Runs_return with (sorted := sortItems (it :: items));
      eauto using sortItems_contract; discriminate.
  - destruct (IH (allocEngine
                    (writeArray (copyArray st (it :: items))
                                (length (arrays st))
                                (sortItems (it :: items)))
                    (expandedEngine e pls))
                 (length (engines st)) loc (expandedEngine e pls)
                 (it :: items) ps) as [st' Hrun].
    + simpl. rewrite nth_error_app2, Nat.sub_diag by lia. reflexivity.
    + simpl. rewrite replaceAt_fresh.
      rewrite nth_error_app1; [assumption|].
      apply nth_error_Some. congruence.
    + exact Hn.
    + exists st'.
      eapply Runs_retry with (sorted := sortItems (it :: items));
        eauto using sortItems_contract; discriminate.
  - injection Hn as <-. eexists.
    eapply Runs_return with (sorted := sortItems (it :: items));
      eauto using sortItems_contract; discriminate.
Qed.

(** ** The plugin pipeline *)

(** X19 (the plugin pipeline). Whatever images are collected, every
    placement [nest] returns for the items built from the valid images
    belongs to an image with positive width and height that is neither
    locked nor hidden, and carries its id, host item and dimensions
    (swapped when rotated). *)
Theorem plugin_places_valid_images (Id H : Type) (images : list (Image Id H))
        (settings : Settings) (artboard : option (Z * Z))
        (fuel : nat) (ps : list (Placement Id H)) :
  nest fuel (pluginEngine settings artboard)
       (pluginItems (fst (validateImages images))) = Some ps ->
  Forall (fun pl =>
            exists img, In img images /\
              pid pl = img_id img /\
              poriginalItem pl = img_originalItem img /\
              0 < img_width img /\ 0 < img_height img /\
              img_locked img = false /\ img_hidden img = false /\
              ((rotated pl = false /\ pwidth pl = img_width img /\
                pheight pl = img_height img) \/
               (rotated pl = true /\ pwidth pl = img_height img /\
                pheight pl = img_width img))) ps.
Proof.
  unfold nest. intros Hnest.
  destruct (nestRun fuel (pluginEngine settings artboard)
                    (pluginItems (fst (validateImages images))))
    as [[final ps']|] eqn:Hrun; [|discriminate].
  injection Hnest as ->.
  apply nestRun_final in Hrun. destruct Hrun as (-> & _ & _).
  pose proof (attempt_from final
                (pluginItems (fst (validateImages images)))) as Hfrom.
  revert Hfrom. apply Forall_impl.
  intros pl (it & Hin & Hid & Hpay & Hdim).
  unfold pluginItems in Hin. apply in_map_iff in Hin.
  destruct Hin as (img & <- & Himg).
  destruct (validateImages_fst_In images img Himg)
    as (Hi & Hw & Hh & Hl & Hhid).
  exists img. simpl in Hid, Hpay, Hdim.
  repeat split; auto. tauto.
Qed.

Lemma plugin_places_valid_images_witness :
  let images := [ mkImage 1%nat "a" tt 100 50 false false;
                  mkImage 2%nat "b" tt 0 10 false false;
                  mkImage 3%nat "c" tt 30 30 true false ] in
  Forall (fun pl =>
            exists img, In img images /\
              pid pl = img_id img /\
              poriginalItem pl = img_originalItem img /\
              0 < img_width img /\ 0 < img_height img /\
              img_locked img = false /\ img_hidden img = false /\
              ((rotated pl = false /\ pwidth pl = img_width img /\
                pheight pl = img_height img) \/
               (rotated pl = true /\ pwidth pl = img_height img /\
                pheight pl = img_width img)))
         [ mkPlacement 1%nat 0 0 100 50 tt false ].
Proof.
  apply (@plugin_places_valid_images nat unit
           [ mkImage 1%nat "a" tt 100 50 false false;
             mkImage 2%nat "b" tt 0 10 false false;
             mkImage 3%nat "c" tt 30 30 true false ]
           (mkSettings 10 false 2000 2000) None 0
           [ mkPlacement 1%nat 0 0 100 50 tt false ]).
  reflexivity.
Defined.

(** ** Collision test *)

(** X23 (collision test). On binary64 numbers [checkCollision] gives the
    same answer when its two images are exchanged, for every spacing. *)
Theorem checkCollision_symmetric (img1 img2 : Double.Box)
        (spacing : option float) :
  Double.checkCollision img1 img2 spacing =
  Double.checkCollision img2 img1 spacing.
Proof.
  unfold Double.checkCollision. f_equal.
  repeat match goal with
         | |- context [PrimFloat.ltb ?a ?b] =>
             destruct (PrimFloat.ltb a b)
         end; reflexivity.
Qed.
